(** * Library management service: borrow/return ledger, credential store,
      validation façade and HTTP adapter.

    A shallow embedding of
      - internal/database/db.go            (schema: tables and constraints),
      - internal/repository  (UserRepository, BookRepository),
      - internal/service     (LibraryService),
      - internal/server      (RESTServer),
    followed by the properties proved about them.

    The relational store is a record of three finite maps keyed by primary
    key.  Every call on the connection pool is one statement: it is recorded
    in a trace, may be failed by the environment (a fault schedule), and
    otherwise runs against the tables under the constraints the schema
    declares.  State changes made before an error are kept, as in the code,
    which wraps none of its statement sequences in a transaction. *)

From Stdlib Require Import ZArith Ascii String.
From stdpp Require Import gmap strings list fin_maps sorting pretty infinite.

Local Open Scope string_scope.
Local Open Scope list_scope.
Local Open Scope Z_scope.

(** ** Results and errors *)

(** A Go call returning [(value, error)]: exactly one of the two is used. *)
Inductive res (E A : Type) : Type :=
  | Ok (a : A)
  | Err (e : E).
Arguments Ok {E A} a.
Arguments Err {E A} e.

Definition is_ok {E A} (r : res E A) : bool :=
  match r with Ok _ => true | Err _ => false end.

(** Errors raised below the repositories: the driver's [pgx.ErrNoRows]
    sentinel, any other driver or server error (with its text), and an error
    of the hashing library. *)
Inductive cause : Type :=
  | ErrNoRows
  | PgError (msg : string)
  | BcryptError (msg : string).

(** [fmt.Errorf(msg)] is [Errorf msg None]; [fmt.Errorf(msg ++ ": %w", err)]
    is [Errorf msg (Some err)]. *)
Inductive error : Type :=
  | Errorf (msg : string) (wrapped : option cause).

Definition cause_text (c : cause) : string :=
  match c with
  | ErrNoRows => "no rows in result set"
  | PgError msg => msg
  | BcryptError msg => msg
  end.

(** [err.Error()], which is also what the verb [%v] prints. *)
Definition Error (e : error) : string :=
  match e with
  | Errorf msg None => msg
  | Errorf msg (Some c) => msg +:+ ": " +:+ cause_text c
  end.

(** [errors.Is(err, pgx.ErrNoRows)] on an error coming from the driver. *)
Definition is_ErrNoRows (c : cause) : bool :=
  match c with ErrNoRows => true | _ => false end.

(** The gRPC status codes the service uses, and a status error. *)
Inductive Code : Type := InvalidArgument | Unauthenticated | NotFound | Internal.

Record Status : Type := mkStatus { st_code : Code; st_message : string }.

#[global] Instance Code_eq_dec : EqDecision Code.
Proof. solve_decision. Defined.

(** ** Time *)

(** Instants are seconds on one time line (UTC). *)
Definition Time : Type := Z.

(** [t.AddDate(0, 0, days)] for an instant in UTC. *)
Definition AddDate_days (days : Z) (t : Time) : Time := t + days * 86400.

(** ** Protocol messages (proto/library/v1) *)

Module pb.

Record User : Type := mkUser { Id : string; Name : string; Email : string }.

Record Book : Type := mkBook {
  BookId : string; Title : string; Author : string; Isbn : string;
  Available : bool }.

Record RegisterUserRequest : Type := mkRegisterUserRequest {
  reg_Name : string; reg_Email : string; reg_Password : string }.
Record RegisterUserResponse : Type := mkRegisterUserResponse { reg_User : User }.

Record LoginUserRequest : Type := mkLoginUserRequest {
  login_Email : string; login_Password : string }.
Record LoginUserResponse : Type := mkLoginUserResponse {
  login_User : User; login_Token : string }.

(** [Book] is a pointer in the request and may be nil. *)
Record CreateBookRequest : Type := mkCreateBookRequest { create_Book : option Book }.
Record CreateBookResponse : Type := mkCreateBookResponse { created_Book : Book }.

Record GetBookRequest : Type := mkGetBookRequest { get_Id : string }.
Record GetBookResponse : Type := mkGetBookResponse { got_Book : Book }.

Record ListBooksRequest : Type := mkListBooksRequest {
  PageSize : Z; PageToken : string }.
Record ListBooksResponse : Type := mkListBooksResponse {
  Books : list Book; NextPageToken : string }.

Record BorrowBookRequest : Type := mkBorrowBookRequest {
  borrow_UserId : string; borrow_BookId : string }.
(** [DueDate] is the instant; on the wire it is printed in RFC 3339. *)
Record BorrowBookResponse : Type := mkBorrowBookResponse {
  BorrowId : string; DueDate : Time }.

Record ReturnBookRequest : Type := mkReturnBookRequest { return_BorrowId : string }.
Record ReturnBookResponse : Type := mkReturnBookResponse { Success : bool }.

Record CheckBookAvailabilityRequest : Type := mkCheckBookAvailabilityRequest {
  check_BookId : string }.
Record CheckBookAvailabilityResponse : Type := mkCheckBookAvailabilityResponse {
  check_Available : bool; check_Status : string }.

End pb.

(** ** The schema (db.go, SetupSchema) *)

Record UserRow : Type := mkUserRow {
  u_name : string; u_email : string; u_password_hash : string }.

Record BookRow : Type := mkBookRow {
  b_title : string; b_author : string; b_isbn : string; b_available : bool }.

Record BorrowRow : Type := mkBorrowRow {
  br_user_id : string; br_book_id : string;
  br_borrow_date : Time; br_due_date : Time;
  br_return_date : option Time }.

(** The three tables, each keyed by its [id] column.  The columns
    [created_at] and [updated_at] are written once by their defaults and
    never read or updated by the program; they are left out. *)
Record DB : Type := mkDB {
  users : gmap string UserRow;
  books : gmap string BookRow;
  borrows : gmap string BorrowRow }.

Definition empty_db : DB := mkDB ∅ ∅ ∅.

(** Number of characters of a UTF-8 string: the bytes that are not
    continuation bytes.  This is the length [VARCHAR(n)] limits. *)
Definition is_continuation (c : ascii) : bool :=
  let n := N_of_ascii c in (128 <=? n)%N && (n <? 192)%N.

Fixpoint char_length (s : string) : nat :=
  match s with
  | EmptyString => 0%nat
  | String c s' => if is_continuation c then char_length s' else S (char_length s')
  end.

Definition fits (n : nat) (s : string) : bool := (char_length s <=? n)%nat.

(** Texts of the server errors the constraints raise (the names PostgreSQL
    gives these conditions). *)
Definition string_data_right_truncation : string := "string_data_right_truncation".
Definition unique_violation : string := "unique_violation".
Definition foreign_key_violation : string := "foreign_key_violation".

(** Rows of a table that satisfy a decidable condition, in key order. *)
Definition select_where {V} (P : V → bool) (t : gmap string V) : list (string * V) :=
  map_to_list (filter (λ kv, P kv.2 = true) t).

Definition exists_where {V} (P : V → bool) (t : gmap string V) : bool :=
  bool_decide (filter (λ kv : string * V, P kv.2 = true) t ≠ ∅).

(** [gen_random_uuid()]: an identifier not yet used as a key of the table. *)
Definition gen_random_uuid {V} (t : gmap string V) : string := fresh (dom t).

Definition set_available (a : bool) (b : BookRow) : BookRow :=
  mkBookRow (b_title b) (b_author b) (b_isbn b) a.

Definition set_return_date (t : Time) (r : BorrowRow) : BorrowRow :=
  mkBorrowRow (br_user_id r) (br_book_id r) (br_borrow_date r) (br_due_date r) (Some t).

(** ** The statements the program issues *)

Inductive Stmt : Type :=
  | InsertUser (name email password_hash : string)
  | SelectUserByEmail (email : string)
  | SelectUserById (id : string)
  | InsertBook (title author isbn : string) (available : bool)
  | SelectBookById (id : string)
  | SelectBooksPage (limit offset : Z)
  | SelectAvailable (book_id : string)
  | UpdateAvailable (book_id : string) (available : bool)
  | InsertBorrow (user_id book_id : string) (due_date : Time)
  | SelectBorrowBook (borrow_id : string)
  | UpdateReturnDate (borrow_id : string).

(** ** The world a request runs in *)

(** [faults]: what the environment does to the next statements, in order;
    [Some msg] fails the statement with a driver error [msg] before it
    touches the tables, [None] (and an exhausted schedule) lets it run.
    [entropy] seeds the salt of the next password hash.  [stmts] is the
    trace of statements sent to the pool, oldest first, and [stdout] what
    the process printed. *)
Record World : Type := mkWorld {
  db : DB;
  clock : Time;
  faults : list (option string);
  entropy : nat;
  stmts : list Stmt;
  stdout : list string }.

Definition with_db (d : DB) (w : World) : World :=
  mkWorld d (clock w) (faults w) (entropy w) (stmts w) (stdout w).

Definition with_clock (t : Time) (w : World) : World :=
  mkWorld (db w) t (faults w) (entropy w) (stmts w) (stdout w).

Definition with_faults (f : list (option string)) (w : World) : World :=
  mkWorld (db w) (clock w) f (entropy w) (stmts w) (stdout w).

Definition next_entropy (w : World) : World :=
  mkWorld (db w) (clock w) (faults w) (S (entropy w)) (stmts w) (stdout w).

Definition sent (s : Stmt) (w : World) : World :=
  mkWorld (db w) (clock w) (faults w) (entropy w) (stmts w ++ [s]) (stdout w).

Definition Printf (line : string) (w : World) : World :=
  mkWorld (db w) (clock w) (faults w) (entropy w) (stmts w) (stdout w ++ [line]).

(** A fresh world over a store: nothing sent, nothing printed, no faults. *)
Definition boot (d : DB) (now : Time) : World := mkWorld d now [] 0%nat [] [].

(** A computation in the world that ends in a value or an error. *)
Definition M (E A : Type) : Type := World → res E A * World.

(** ** The connection pool (database.DB.Pool) *)

Module Pool.

(** One statement on the pool: it is recorded, then either failed by the
    environment or run against the tables. *)
Definition statement {A} (s : Stmt) (run : World → res cause A * DB) : M cause A :=
  λ w,
    let w := sent s w in
    match faults w with
    | Some msg :: rest => (Err (PgError msg), with_faults rest w)
    | None :: rest =>
        let '(r, d) := run w in (r, with_db d (with_faults rest w))
    | [] =>
        let '(r, d) := run w in (r, with_db d w)
    end.

(** INSERT INTO users (name, email, password_hash) VALUES ($1, $2, $3)
    RETURNING id, name, email *)
Definition insert_user (name email password_hash : string) : M cause pb.User :=
  statement (InsertUser name email password_hash) (λ w,
    let d := db w in
    if negb (fits 255 name && fits 255 email && fits 255 password_hash) then
      (Err (PgError string_data_right_truncation), d)
    else if exists_where (λ u, String.eqb (u_email u) email) (users d) then
      (Err (PgError unique_violation), d)
    else
      let id := gen_random_uuid (users d) in
      (Ok (pb.mkUser id name email),
       mkDB (<[id := mkUserRow name email password_hash]> (users d)) (books d) (borrows d))).

(** SELECT id, name, email, password_hash FROM users WHERE email = $1 *)
Definition select_user_by_email (email : string) : M cause (pb.User * string) :=
  statement (SelectUserByEmail email) (λ w,
    let d := db w in
    match select_where (λ u, String.eqb (u_email u) email) (users d) with
    | (id, u) :: _ => (Ok (pb.mkUser id (u_name u) (u_email u), u_password_hash u), d)
    | [] => (Err ErrNoRows, d)
    end).

(** SELECT id, name, email FROM users WHERE id = $1 *)
Definition select_user_by_id (id : string) : M cause pb.User :=
  statement (SelectUserById id) (λ w,
    let d := db w in
    match users d !! id with
    | Some u => (Ok (pb.mkUser id (u_name u) (u_email u)), d)
    | None => (Err ErrNoRows, d)
    end).

(** INSERT INTO books (title, author, isbn, available) VALUES ($1, $2, $3, $4)
    RETURNING id, title, author, isbn, available *)
Definition insert_book (title author isbn : string) (available : bool) : M cause pb.Book :=
  statement (InsertBook title author isbn available) (λ w,
    let d := db w in
    if negb (fits 255 title && fits 255 author && fits 50 isbn) then
      (Err (PgError string_data_right_truncation), d)
    else if exists_where (λ b, String.eqb (b_isbn b) isbn) (books d) then
      (Err (PgError unique_violation), d)
    else
      let id := gen_random_uuid (books d) in
      (Ok (pb.mkBook id title author isbn available),
       mkDB (users d) (<[id := mkBookRow title author isbn available]> (books d)) (borrows d))).

(** SELECT id, title, author, isbn, available FROM books WHERE id = $1 *)
Definition select_book_by_id (id : string) : M cause pb.Book :=
  statement (SelectBookById id) (λ w,
    let d := db w in
    match books d !! id with
    | Some b => (Ok (pb.mkBook id (b_title b) (b_author b) (b_isbn b) (b_available b)), d)
    | None => (Err ErrNoRows, d)
    end).

(** The order of [ORDER BY title]: titles compared byte by byte (the C
    collation); rows with equal titles stay in key order. *)
Definition title_le (x y : string * BookRow) : Prop :=
  String.leb (b_title x.2) (b_title y.2) = true.

#[global] Instance title_le_dec x y : Decision (title_le x y).
Proof. unfold title_le. apply _. Defined.

Definition invalid_row_count_in_limit_clause : string :=
  "invalid_row_count_in_limit_clause".
Definition invalid_row_count_in_result_offset_clause : string :=
  "invalid_row_count_in_result_offset_clause".

(** SELECT id, title, author, isbn, available FROM books ORDER BY title
    LIMIT $1 OFFSET $2.  A negative limit or offset is a server error. *)
Definition select_books_page (limit offset : Z) : M cause (list pb.Book) :=
  statement (SelectBooksPage limit offset) (λ w,
    let d := db w in
    if limit <? 0 then (Err (PgError invalid_row_count_in_limit_clause), d)
    else if offset <? 0 then (Err (PgError invalid_row_count_in_result_offset_clause), d)
    else
      let rows := merge_sort title_le (map_to_list (books d)) in
      (Ok (map (λ kv : string * BookRow,
                  pb.mkBook kv.1 (b_title kv.2) (b_author kv.2) (b_isbn kv.2) (b_available kv.2))
               (take (Z.to_nat limit) (drop (Z.to_nat offset) rows))), d)).

(** SELECT available FROM books WHERE id = $1 *)
Definition select_available (book_id : string) : M cause bool :=
  statement (SelectAvailable book_id) (λ w,
    let d := db w in
    match books d !! book_id with
    | Some b => (Ok (b_available b), d)
    | None => (Err ErrNoRows, d)
    end).

(** UPDATE books SET available = <a> WHERE id = $1.  Updating no row is not
    an error. *)
Definition update_available (book_id : string) (a : bool) : M cause unit :=
  statement (UpdateAvailable book_id a) (λ w,
    let d := db w in
    (Ok tt, mkDB (users d) (alter (set_available a) book_id (books d)) (borrows d))).

(** INSERT INTO borrows (user_id, book_id, due_date) VALUES ($1, $2, $3)
    RETURNING id.  Both references are checked against their tables;
    [borrow_date] takes its default, the current time, and [return_date]
    stays null. *)
Definition insert_borrow (user_id book_id : string) (due_date : Time) : M cause string :=
  statement (InsertBorrow user_id book_id due_date) (λ w,
    let d := db w in
    if negb (bool_decide (is_Some (users d !! user_id))
             && bool_decide (is_Some (books d !! book_id))) then
      (Err (PgError foreign_key_violation), d)
    else
      let id := gen_random_uuid (borrows d) in
      (Ok id,
       mkDB (users d) (books d)
            (<[id := mkBorrowRow user_id book_id (clock w) due_date None]> (borrows d)))).

(** SELECT book_id FROM borrows WHERE id = $1 *)
Definition select_borrow_book (borrow_id : string) : M cause string :=
  statement (SelectBorrowBook borrow_id) (λ w,
    let d := db w in
    match borrows d !! borrow_id with
    | Some r => (Ok (br_book_id r), d)
    | None => (Err ErrNoRows, d)
    end).

(** UPDATE borrows SET return_date = NOW() WHERE id = $1 *)
Definition update_return_date (borrow_id : string) : M cause unit :=
  statement (UpdateReturnDate borrow_id) (λ w,
    let d := db w in
    (Ok tt, mkDB (users d) (books d)
                 (alter (set_return_date (clock w)) borrow_id (borrows d)))).

End Pool.

(** ** The password hashing library (golang.org/x/crypto/bcrypt) *)

(** The library is taken as an interface: [GenerateFromPassword password
    cost salt_seed] returns the hash or an error, [CompareHashAndPassword
    hash password] is [true] when the library returns no error.  The one law
    assumed is the library's contract: a generated hash accepts the password
    it was generated from. *)
Class Bcrypt : Type := {
  GenerateFromPassword : string → nat → nat → res string string;
  CompareHashAndPassword : string → string → bool;
  compare_generated : ∀ password cost seed hash,
    GenerateFromPassword password cost seed = Ok hash →
    CompareHashAndPassword hash password = true }.

Definition DefaultCost : nat := 10.

Definition newline : string := String (ascii_of_nat 10) EmptyString.

(** ** internal/repository: UserRepository *)

Module UserRepository.

Definition Create `{Bcrypt} (name email password : string) : M error pb.User :=
  λ w,
    (* Hash the password *)
    match GenerateFromPassword password DefaultCost (entropy w) with
    | Err msg => (Err (Errorf "failed to hash password" (Some (BcryptError msg))), w)
    | Ok hashedPassword =>
        let w := next_entropy w in
        let '(r, w) := Pool.insert_user name email hashedPassword w in
        match r with
        | Err err => (Err (Errorf "failed to create user" (Some err)), w)
        | Ok user => (Ok user, w)
        end
    end.

Definition VerifyCredentials `{Bcrypt} (email password : string) : M error pb.User :=
  λ w,
    let '(r, w) := Pool.select_user_by_email email w in
    match r with
    | Err err =>
        if is_ErrNoRows err then (Err (Errorf "invalid credentials" None), w)
        else (Err (Errorf "database error" (Some err)), w)
    | Ok (user, passwordHash) =>
        (* Compare hashed password with provided password *)
        if CompareHashAndPassword passwordHash password then (Ok user, w)
        else (Err (Errorf "invalid credentials" None), w)
    end.

Definition GetByID (id : string) : M error pb.User :=
  λ w,
    let '(r, w) := Pool.select_user_by_id id w in
    match r with
    | Err err =>
        if is_ErrNoRows err then (Err (Errorf "user not found" None), w)
        else (Err (Errorf "database error" (Some err)), w)
    | Ok user => (Ok user, w)
    end.

End UserRepository.

(** ** internal/repository: BookRepository *)

Module BookRepository.

Definition Create (book : pb.Book) : M error pb.Book :=
  λ w,
    let '(r, w) :=
      Pool.insert_book (pb.Title book) (pb.Author book) (pb.Isbn book) (pb.Available book) w in
    match r with
    | Err err => (Err (Errorf "failed to create book" (Some err)), w)
    | Ok book => (Ok book, w)
    end.

Definition GetByID (id : string) : M error pb.Book :=
  λ w,
    let '(r, w) := Pool.select_book_by_id id w in
    match r with
    | Err err =>
        if is_ErrNoRows err then (Err (Errorf "book not found" None), w)
        else (Err (Errorf "database error" (Some err)), w)
    | Ok book => (Ok book, w)
    end.

Definition List (limit offset : Z) : M error (list pb.Book) :=
  λ w,
    let '(r, w) := Pool.select_books_page limit offset w in
    match r with
    | Err err => (Err (Errorf "failed to list books" (Some err)), w)
    | Ok books => (Ok books, w)
    end.

Definition BorrowBook (userID bookID : string) (dueDate : Time) : M error string :=
  λ w,
    (* Check if book is available *)
    let '(r, w) := Pool.select_available bookID w in
    match r with
    | Err err => (Err (Errorf "failed to check book availability" (Some err)), w)
    | Ok available =>
        if negb available then (Err (Errorf "book is not available" None), w)
        else
          (* Update book availability *)
          let '(r, w) := Pool.update_available bookID false w in
          match r with
          | Err err => (Err (Errorf "failed to update book availability" (Some err)), w)
          | Ok _ =>
              (* Create borrow record *)
              let '(r, w) := Pool.insert_borrow userID bookID dueDate w in
              match r with
              | Err err =>
                  (* If there was an error, try to revert the book availability *)
                  let '(revert, w) := Pool.update_available bookID true w in
                  let w :=
                    match revert with
                    | Err revertErr =>
                        (* Log but continue with original error *)
                        Printf ("Failed to revert book availability: "
                                +:+ cause_text revertErr +:+ newline) w
                    | Ok _ => w
                    end in
                  (Err (Errorf "failed to create borrow record" (Some err)), w)
              | Ok borrowID => (Ok borrowID, w)
              end
          end
    end.

Definition ReturnBook (borrowID : string) : M error unit :=
  λ w,
    (* Get book ID from borrow *)
    let '(r, w) := Pool.select_borrow_book borrowID w in
    match r with
    | Err err => (Err (Errorf "failed to get borrow" (Some err)), w)
    | Ok bookID =>
        (* Update book availability *)
        let '(r, w) := Pool.update_available bookID true w in
        match r with
        | Err err => (Err (Errorf "failed to update book availability" (Some err)), w)
        | Ok _ =>
            (* Update borrow record *)
            let '(r, w) := Pool.update_return_date borrowID w in
            match r with
            | Err err =>
                (* If this fails, try to revert the book availability *)
                let '(revert, w) := Pool.update_available bookID false w in
                let w :=
                  match revert with
                  | Err revertErr =>
                      Printf ("Failed to revert book availability: "
                              +:+ cause_text revertErr +:+ newline) w
                  | Ok _ => w
                  end in
                (Err (Errorf "failed to update borrow record" (Some err)), w)
            | Ok _ => (Ok tt, w)
            end
        end
    end.

End BookRepository.

(** ** Regular expressions (package regexp), as far as the service uses them *)

Inductive regex : Type :=
  | Void
  | Eps
  | Class (p : ascii → bool)
  | Seq (r1 r2 : regex)
  | Alt (r1 r2 : regex)
  | Star (r : regex).

(** [r+] and [r{2,}] *)
Definition Plus (r : regex) : regex := Seq r (Star r).
Definition AtLeast2 (r : regex) : regex := Seq r (Seq r (Star r)).

Fixpoint nullable (r : regex) : bool :=
  match r with
  | Void => false
  | Eps => true
  | Class _ => false
  | Seq r1 r2 => nullable r1 && nullable r2
  | Alt r1 r2 => nullable r1 || nullable r2
  | Star _ => true
  end.

(** The residual of [r] after reading the character [c]. *)
Fixpoint deriv (c : ascii) (r : regex) : regex :=
  match r with
  | Void => Void
  | Eps => Void
  | Class p => if p c then Eps else Void
  | Seq r1 r2 =>
      if nullable r1 then Alt (Seq (deriv c r1) r2) (deriv c r2)
      else Seq (deriv c r1) r2
  | Alt r1 r2 => Alt (deriv c r1) (deriv c r2)
  | Star r1 => Seq (deriv c r1) (Star r1)
  end.

(** [MatchString] of the expression anchored by [^] and [$]: the whole
    string is in the language of [r]. *)
Fixpoint MatchString (r : regex) (s : string) : bool :=
  match s with
  | EmptyString => nullable r
  | String c s' => MatchString (deriv c r) s'
  end.

Definition in_range (lo hi : ascii) (c : ascii) : bool :=
  (N_of_ascii lo <=? N_of_ascii c)%N && (N_of_ascii c <=? N_of_ascii hi)%N.

Definition one_of (set : string) (c : ascii) : bool :=
  bool_decide (c ∈ list_ascii_of_string set).

Definition alpha (c : ascii) : bool := in_range "a" "z" c || in_range "A" "Z" c.
Definition alnum (c : ascii) : bool := alpha c || in_range "0" "9" c.

(** ^[a-zA-Z0-9._%+\-]+@[a-zA-Z0-9.\-]+\.[a-zA-Z]{2,}$ *)
Definition emailRegex : regex :=
  Seq (Plus (Class (λ c, alnum c || one_of "._%+-" c)))
 (Seq (Class (one_of "@"))
 (Seq (Plus (Class (λ c, alnum c || one_of ".-" c)))
 (Seq (Class (one_of "."))
      (AtLeast2 (Class alpha))))).

(** [s == ""] *)
Definition is_empty (s : string) : bool := String.eqb s "".

(** ** internal/service: LibraryService *)

Module LibraryService.

Definition RegisterUser `{Bcrypt} (req : pb.RegisterUserRequest)
  : M Status pb.RegisterUserResponse :=
  λ w,
    (* Validate inputs *)
    if is_empty (pb.reg_Name req) || is_empty (pb.reg_Email req)
       || is_empty (pb.reg_Password req) then
      (Err (mkStatus InvalidArgument "name, email, and password are required"), w)
    (* Validate email format *)
    else if negb (MatchString emailRegex (pb.reg_Email req)) then
      (Err (mkStatus InvalidArgument "invalid email format"), w)
    (* Validate password strength *)
    else if (String.length (pb.reg_Password req) <? 8)%nat then
      (Err (mkStatus InvalidArgument "password must be at least 8 characters"), w)
    else
      let '(r, w) :=
        UserRepository.Create (pb.reg_Name req) (pb.reg_Email req) (pb.reg_Password req) w in
      match r with
      | Err err => (Err (mkStatus Internal ("failed to create user: " +:+ Error err)), w)
      | Ok user => (Ok (pb.mkRegisterUserResponse user), w)
      end.

Definition LoginUser `{Bcrypt} (req : pb.LoginUserRequest) : M Status pb.LoginUserResponse :=
  λ w,
    if is_empty (pb.login_Email req) || is_empty (pb.login_Password req) then
      (Err (mkStatus InvalidArgument "email and password are required"), w)
    else
      let '(r, w) :=
        UserRepository.VerifyCredentials (pb.login_Email req) (pb.login_Password req) w in
      match r with
      | Err _ => (Err (mkStatus Unauthenticated "invalid credentials"), w)
      | Ok user =>
          let token := "sample-jwt-token" in
          (Ok (pb.mkLoginUserResponse user token), w)
      end.

Definition CreateBook (req : pb.CreateBookRequest) : M Status pb.CreateBookResponse :=
  λ w,
    match pb.create_Book req with
    | None => (Err (mkStatus InvalidArgument "book is required"), w)
    | Some book =>
        if is_empty (pb.Title book) || is_empty (pb.Author book) then
          (Err (mkStatus InvalidArgument "title and author are required"), w)
        else
          let '(r, w) := BookRepository.Create book w in
          match r with
          | Err err => (Err (mkStatus Internal ("failed to create book: " +:+ Error err)), w)
          | Ok book => (Ok (pb.mkCreateBookResponse book), w)
          end
    end.

Definition GetBook (req : pb.GetBookRequest) : M Status pb.GetBookResponse :=
  λ w,
    if is_empty (pb.get_Id req) then
      (Err (mkStatus InvalidArgument "book id is required"), w)
    else
      let '(r, w) := BookRepository.GetByID (pb.get_Id req) w in
      match r with
      | Err err => (Err (mkStatus NotFound ("book not found: " +:+ Error err)), w)
      | Ok book => (Ok (pb.mkGetBookResponse book), w)
      end.

Definition ListBooks (req : pb.ListBooksRequest) : M Status pb.ListBooksResponse :=
  λ w,
    (* Default page size *)
    let pageSize := if 0 <? pb.PageSize req then pb.PageSize req else 10 in
    (* no pagination with tokens: an offset of 0 *)
    let '(r, w) := BookRepository.List pageSize 0 w in
    match r with
    | Err err => (Err (mkStatus Internal ("failed to list books: " +:+ Error err)), w)
    | Ok books => (Ok (pb.mkListBooksResponse books ""), w)
    end.

Definition BorrowBook (req : pb.BorrowBookRequest) : M Status pb.BorrowBookResponse :=
  λ w,
    if is_empty (pb.borrow_UserId req) || is_empty (pb.borrow_BookId req) then
      (Err (mkStatus InvalidArgument "user id and book id are required"), w)
    else
      (* Set due date to 14 days from now *)
      let dueDate := AddDate_days 14 (clock w) in
      let '(r, w) :=
        BookRepository.BorrowBook (pb.borrow_UserId req) (pb.borrow_BookId req) dueDate w in
      match r with
      | Err err => (Err (mkStatus Internal ("failed to borrow book: " +:+ Error err)), w)
      | Ok borrowID => (Ok (pb.mkBorrowBookResponse borrowID dueDate), w)
      end.

Definition ReturnBook (req : pb.ReturnBookRequest) : M Status pb.ReturnBookResponse :=
  λ w,
    if is_empty (pb.return_BorrowId req) then
      (Err (mkStatus InvalidArgument "borrow id is required"), w)
    else
      let '(r, w) := BookRepository.ReturnBook (pb.return_BorrowId req) w in
      match r with
      | Err err => (Err (mkStatus Internal ("failed to return book: " +:+ Error err)), w)
      | Ok _ => (Ok (pb.mkReturnBookResponse true), w)
      end.

Definition CheckBookAvailability (req : pb.CheckBookAvailabilityRequest)
  : M Status pb.CheckBookAvailabilityResponse :=
  λ w,
    if is_empty (pb.check_BookId req) then
      (Err (mkStatus InvalidArgument "book id is required"), w)
    else
      let '(r, w) := BookRepository.GetByID (pb.check_BookId req) w in
      match r with
      | Err err => (Err (mkStatus NotFound ("book not found: " +:+ Error err)), w)
      | Ok book =>
          let statusMsg := if pb.Available book then "Available" else "Borrowed" in
          (Ok (pb.mkCheckBookAvailabilityResponse (pb.Available book) statusMsg), w)
      end.

End LibraryService.

(** ** internal/server: RESTServer *)

(** JSON values as far as the handlers build them; an object lists its
    members in the order of the source, and [JTime] is the string that
    prints an instant in RFC 3339. *)
#[local] Unset Elimination Schemes.
Inductive JSON : Type :=
  | JString (s : string)
  | JBool (b : bool)
  | JTime (t : Time)
  | JObject (members : list (string * JSON))
  | JArray (items : list JSON).
#[local] Set Elimination Schemes.

Record Response : Type := mkResponse { status : Z; body : JSON }.

Definition StatusOK : Z := 200.
Definition StatusCreated : Z := 201.
Definition StatusBadRequest : Z := 400.
Definition StatusUnauthorized : Z := 401.
Definition StatusNotFound : Z := 404.
Definition StatusInternalServerError : Z := 500.

Definition code_name (c : Code) : string :=
  match c with
  | InvalidArgument => "InvalidArgument"
  | Unauthenticated => "Unauthenticated"
  | NotFound => "NotFound"
  | Internal => "Internal"
  end.

(** [err.Error()] of a gRPC status error. *)
Definition Status_Error (st : Status) : string :=
  "rpc error: code = " +:+ code_name (st_code st) +:+ " desc = " +:+ st_message st.

Definition error_body (msg : string) : JSON := JObject [("error", JString msg)].

(** Two's-complement conversion [int32(n)]. *)
Definition int32 (n : Z) : Z := (n + 2147483648) mod 4294967296 - 2147483648.

Definition json_space (c : ascii) : bool :=
  bool_decide (N_of_ascii c ∈ [32; 9; 10; 13]%N).

Fixpoint skip_space (s : string) : string :=
  match s with
  | String c s' => if json_space c then skip_space s' else s
  | EmptyString => s
  end.

(** The digits at the front of [s] as a number (after the value [acc]), with
    how many there were and the rest of the string. *)
Fixpoint read_digits (s : string) (acc : Z) (count : nat) : Z * nat * string :=
  match s with
  | String c s' =>
      if in_range "0" "9" c
      then read_digits s' (10 * acc + (Z.of_N (N_of_ascii c) - 48)) (S count)
      else (acc, count, s)
  | EmptyString => (acc, count, s)
  end.

Definition starts_with_zero (s : string) : bool :=
  match s with String c _ => Ascii.eqb c "0" | EmptyString => false end.

(** [json.Unmarshal(data, &result)] for [result] an [int] holding 0: the
    literal [null] leaves it alone; an integer literal in range is stored;
    anything else is an error. *)
Definition Unmarshal_int (data : string) : option Z :=
  let s := skip_space data in
  match s with
  | String "n" (String "u" (String "l" (String "l" rest))) =>
      if is_empty (skip_space rest) then Some 0 else None
  | _ =>
      let '(negative, s) :=
        match s with
        | String "-" s' => (true, s')
        | _ => (false, s)
        end in
      let '(n, count, rest) := read_digits s 0 0 in
      if (count =? 0)%nat then None
      else if starts_with_zero s && (1 <? count)%nat then None
      else if negb (is_empty (skip_space rest)) then None
      else
        let v := if negative then - n else n in
        if (v <? - 9223372036854775808) || (9223372036854775807 <? v) then None
        else Some v
  end.

Module RESTServer.

(** Helper function to parse int32 *)
Definition parseInt32 (s : string) : res unit Z :=
  match Unmarshal_int s with
  | Some result => Ok (int32 result)
  | None => Err tt
  end.

(** A handler answers with one response; [None] for the body stands for a
    request whose JSON [ShouldBindJSON] rejects. *)
Definition Handler : Type := World → Response * World.

Definition registerUser `{Bcrypt} (request : option pb.RegisterUserRequest) : Handler :=
  λ w,
    match request with
    | None => (mkResponse StatusBadRequest (error_body "Invalid request format"), w)
    | Some grpcReq =>
        let '(r, w) := LibraryService.RegisterUser grpcReq w in
        match r with
        | Err err => (mkResponse StatusInternalServerError (error_body (Status_Error err)), w)
        | Ok response =>
            (mkResponse StatusCreated
               (JObject [("id", JString (pb.Id (pb.reg_User response)));
                         ("name", JString (pb.Name (pb.reg_User response)));
                         ("email", JString (pb.Email (pb.reg_User response)))]), w)
        end
    end.

Definition loginUser `{Bcrypt} (request : option pb.LoginUserRequest) : Handler :=
  λ w,
    match request with
    | None => (mkResponse StatusBadRequest (error_body "Invalid request format"), w)
    | Some grpcReq =>
        let '(r, w) := LibraryService.LoginUser grpcReq w in
        match r with
        | Err _ => (mkResponse StatusUnauthorized (error_body "Invalid credentials"), w)
        | Ok response =>
            (mkResponse StatusOK
               (JObject [("user",
                          JObject [("id", JString (pb.Id (pb.login_User response)));
                                   ("name", JString (pb.Name (pb.login_User response)));
                                   ("email", JString (pb.Email (pb.login_User response)))]);
                         ("token", JString (pb.login_Token response))]), w)
        end
    end.

Definition book_members (book : pb.Book) : list (string * JSON) :=
  [("id", JString (pb.BookId book));
   ("title", JString (pb.Title book));
   ("author", JString (pb.Author book));
   ("isbn", JString (pb.Isbn book));
   ("available", JBool (pb.Available book))].

(** The bound body carries title, author, isbn and available; the
    identifier of the book sent on is empty. *)
Definition createBook (request : option (string * string * string * bool)) : Handler :=
  λ w,
    match request with
    | None => (mkResponse StatusBadRequest (error_body "Invalid request format"), w)
    | Some (title, author, isbn, available) =>
        let grpcReq := pb.mkCreateBookRequest (Some (pb.mkBook "" title author isbn available)) in
        let '(r, w) := LibraryService.CreateBook grpcReq w in
        match r with
        | Err err => (mkResponse StatusInternalServerError (error_body (Status_Error err)), w)
        | Ok response =>
            (mkResponse StatusCreated (JObject (book_members (pb.created_Book response))), w)
        end
    end.

Definition getBook (bookID : string) : Handler :=
  λ w,
    let '(r, w) := LibraryService.GetBook (pb.mkGetBookRequest bookID) w in
    match r with
    | Err _ => (mkResponse StatusNotFound (error_body "Book not found"), w)
    | Ok response => (mkResponse StatusOK (JObject (book_members (pb.got_Book response))), w)
    end.

(** [pageSizeParam] is the query parameter [page_size], empty when absent. *)
Definition listBooks (pageSizeParam : string) : Handler :=
  λ w,
    let pageSize :=
      if is_empty pageSizeParam then 10
      else match parseInt32 pageSizeParam with
           | Ok size => size
           | Err _ => 10
           end in
    let '(r, w) := LibraryService.ListBooks (pb.mkListBooksRequest (int32 pageSize) "") w in
    match r with
    | Err err => (mkResponse StatusInternalServerError (error_body (Status_Error err)), w)
    | Ok response =>
        (mkResponse StatusOK
           (JObject [("books", JArray (map (λ book, JObject (book_members book))
                                           (pb.Books response)))]), w)
    end.

Definition borrowBook (bookID : string) (request : option string) : Handler :=
  λ w,
    match request with
    | None => (mkResponse StatusBadRequest (error_body "Invalid request format"), w)
    | Some userID =>
        let '(r, w) := LibraryService.BorrowBook (pb.mkBorrowBookRequest userID bookID) w in
        match r with
        | Err err => (mkResponse StatusInternalServerError (error_body (Status_Error err)), w)
        | Ok response =>
            (mkResponse StatusOK
               (JObject [("borrow_id", JString (pb.BorrowId response));
                         ("due_date", JTime (pb.DueDate response))]), w)
        end
    end.

Definition returnBook (request : option string) : Handler :=
  λ w,
    match request with
    | None => (mkResponse StatusBadRequest (error_body "Invalid request format"), w)
    | Some borrowID =>
        let '(r, w) := LibraryService.ReturnBook (pb.mkReturnBookRequest borrowID) w in
        match r with
        | Err err => (mkResponse StatusInternalServerError (error_body (Status_Error err)), w)
        | Ok response => (mkResponse StatusOK (JObject [("success", JBool (pb.Success response))]), w)
        end
    end.

Definition checkBookAvailability (bookID : string) : Handler :=
  λ w,
    let '(r, w) :=
      LibraryService.CheckBookAvailability (pb.mkCheckBookAvailabilityRequest bookID) w in
    match r with
    | Err err =>
        if decide (st_code err = NotFound)
        then (mkResponse StatusNotFound (error_body "Book not found"), w)
        else (mkResponse StatusInternalServerError (error_body (Status_Error err)), w)
    | Ok response =>
        (mkResponse StatusOK
           (JObject [("available", JBool (pb.check_Available response));
                     ("status", JString (pb.check_Status response))]), w)
    end.

(** A request as the router (setupRoutes) dispatches it: the route, its
    path parameter or query parameter, and its body as bound. *)
Inductive Request : Type :=
  | PostRegisterUser (body : option pb.RegisterUserRequest)
  | PostLoginUser (body : option pb.LoginUserRequest)
  | PostBooks (body : option (string * string * string * bool))
  | GetBook (id : string)
  | GetBooks (page_size : string)
  | PostBorrowBook (id : string) (body : option string)
  | PostReturnBook (body : option string)
  | GetAvailability (id : string).

Definition serve `{Bcrypt} (rq : Request) : Handler :=
  match rq with
  | PostRegisterUser body => registerUser body
  | PostLoginUser body => loginUser body
  | PostBooks body => createBook body
  | GetBook id => getBook id
  | GetBooks page_size => listBooks page_size
  | PostBorrowBook id body => borrowBook id body
  | PostReturnBook body => returnBook body
  | GetAvailability id => checkBookAvailability id
  end.

End RESTServer.

(** How the façade operation behind a request ends: [None] when the body
    is not bound and the façade is not called, [Some None] when the
    operation succeeds, [Some (Some st)] when it fails with the status [st]. *)
Definition failure {A} (r : res Status A) : option Status :=
  match r with Err st => Some st | Ok _ => None end.

Definition facade_outcome `{Bcrypt} (rq : RESTServer.Request) (w : World)
  : option (option Status) :=
  match rq with
  | RESTServer.PostRegisterUser body =>
      req ← body; Some (failure (LibraryService.RegisterUser req w).1)
  | RESTServer.PostLoginUser body =>
      req ← body; Some (failure (LibraryService.LoginUser req w).1)
  | RESTServer.PostBooks body =>
      b ← body;
      Some (failure (LibraryService.CreateBook
                       (pb.mkCreateBookRequest
                          (Some (pb.mkBook "" b.1.1.1 b.1.1.2 b.1.2 b.2))) w).1)
  | RESTServer.GetBook id =>
      Some (failure (LibraryService.GetBook (pb.mkGetBookRequest id) w).1)
  | RESTServer.GetBooks page_size =>
      let pageSize :=
        if is_empty page_size then 10
        else match RESTServer.parseInt32 page_size with
             | Ok size => size
             | Err _ => 10
             end in
      Some (failure (LibraryService.ListBooks (pb.mkListBooksRequest (int32 pageSize) "") w).1)
  | RESTServer.PostBorrowBook id body =>
      userID ← body;
      Some (failure (LibraryService.BorrowBook (pb.mkBorrowBookRequest userID id) w).1)
  | RESTServer.PostReturnBook body =>
      borrowID ← body;
      Some (failure (LibraryService.ReturnBook (pb.mkReturnBookRequest borrowID) w).1)
  | RESTServer.GetAvailability id =>
      Some (failure (LibraryService.CheckBookAvailability
                       (pb.mkCheckBookAvailabilityRequest id) w).1)
  end.

(** The mapping from failure category to HTTP status that the interface
    description announces. *)
Definition status_of_category (c : Code) : Z :=
  match c with
  | InvalidArgument => 400
  | Unauthenticated => 401
  | NotFound => 404
  | Internal => 500
  end.

(** The status each handler gives to a failure of its façade operation. *)
Definition status_of_failure (rq : RESTServer.Request) (c : Code) : Z :=
  match rq with
  | RESTServer.PostLoginUser _ => 401
  | RESTServer.GetBook _ => 404
  | RESTServer.GetAvailability _ => if decide (c = NotFound) then 404 else 500
  | _ => 500
  end.

Definition status_of_success (rq : RESTServer.Request) : Z :=
  match rq with
  | RESTServer.PostRegisterUser _ | RESTServer.PostBooks _ => 201
  | _ => 200
  end.

(** ** Façade operations, runs and the ledger invariant *)

(** One request to the façade. *)
Inductive Op : Type :=
  | OpRegisterUser (req : pb.RegisterUserRequest)
  | OpLoginUser (req : pb.LoginUserRequest)
  | OpCreateBook (req : pb.CreateBookRequest)
  | OpGetBook (req : pb.GetBookRequest)
  | OpListBooks (req : pb.ListBooksRequest)
  | OpBorrowBook (req : pb.BorrowBookRequest)
  | OpReturnBook (req : pb.ReturnBookRequest)
  | OpCheckBookAvailability (req : pb.CheckBookAvailabilityRequest).

(** The world after the façade has served the request, whatever it answered. *)
Definition run_op `{Bcrypt} (op : Op) (w : World) : World :=
  match op with
  | OpRegisterUser req => (LibraryService.RegisterUser req w).2
  | OpLoginUser req => (LibraryService.LoginUser req w).2
  | OpCreateBook req => (LibraryService.CreateBook req w).2
  | OpGetBook req => (LibraryService.GetBook req w).2
  | OpListBooks req => (LibraryService.ListBooks req w).2
  | OpBorrowBook req => (LibraryService.BorrowBook req w).2
  | OpReturnBook req => (LibraryService.ReturnBook req w).2
  | OpCheckBookAvailability req => (LibraryService.CheckBookAvailability req w).2
  end.

(** The worlds reached from [w0] by serving requests one after the other,
    with time passing in between; [allowed] says which requests are made in
    which world. *)
Inductive reachable `{Bcrypt} (allowed : Op → World → Prop) (w0 : World) : World → Prop :=
  | reach_start : reachable allowed w0 w0
  | reach_wait w t : reachable allowed w0 w → clock w <= t → reachable allowed w0 (with_clock t w)
  | reach_serve w op : reachable allowed w0 w → allowed op w → reachable allowed w0 (run_op op w).

Definition any_request : Op → World → Prop := λ _ _, True.

(** The borrow record [r] is open. *)
Definition is_open (r : BorrowRow) : Prop := br_return_date r = None.

(** Some open borrow record references the book. *)
Definition open_borrow_of (d : DB) (book_id : string) : Prop :=
  ∃ id r, borrows d !! id = Some r ∧ br_book_id r = book_id ∧ is_open r.

(** A book is unavailable exactly when an open borrow record references it. *)
Definition ledger_invariant (d : DB) : Prop :=
  ∀ id b, books d !! id = Some b → (b_available b = false ↔ open_borrow_of d id).

(** Every borrow record references a book of the catalog. *)
Definition borrows_reference_books (d : DB) : Prop :=
  ∀ id r, borrows d !! id = Some r → is_Some (books d !! br_book_id r).

(** No book has two open borrow records. *)
Definition one_open_borrow (d : DB) : Prop :=
  ∀ id1 id2 r1 r2,
    borrows d !! id1 = Some r1 → borrows d !! id2 = Some r2 →
    br_book_id r1 = br_book_id r2 → is_open r1 → is_open r2 → id1 = id2.

Definition consistent (d : DB) : Prop :=
  ledger_invariant d ∧ borrows_reference_books d ∧ one_open_borrow d.

(** Requests of a disciplined client: a created book is declared available,
    and a borrow that is returned has not been returned before. *)
Definition disciplined (op : Op) (w : World) : Prop :=
  match op with
  | OpCreateBook req =>
      match pb.create_Book req with
      | Some book => pb.Available book = true
      | None => True
      end
  | OpReturnBook req =>
      match borrows (db w) !! pb.return_BorrowId req with
      | Some r => is_open r
      | None => True
      end
  | _ => True
  end.

(** The environment fails none of the statements to come. *)
Definition calm (w : World) : Prop := Forall (λ f, f = None) (faults w).

(** The environment does not fail the next statement. *)
Definition next_fault (w : World) : option string :=
  match faults w with
  | Some msg :: _ => Some msg
  | _ => None
  end.

(** The world after the statement [s] ran and left the tables as [d]. *)
Definition after (s : Stmt) (d : DB) (w : World) : World :=
  with_db d (with_faults (tail (faults w)) (sent s w)).

(** A stand-in for the hashing library that keeps the password as its own
    hash; it only serves to run the service on examples. *)
Definition example_bcrypt : Bcrypt.
Proof.
  refine {| GenerateFromPassword := λ password _ _, Ok password;
            CompareHashAndPassword := λ hash password, String.eqb hash password |}.
  intros password cost seed hash [= <-]. apply String.eqb_refl.
Defined.

(** ** Notions used in the statements *)

(** The store after [UPDATE books SET available = a WHERE id = id]. *)
Definition books_updated (id : string) (a : bool) (d : DB) : DB :=
  mkDB (users d) (alter (set_available a) id (books d)) (borrows d).

(** The store after an open borrow record was inserted under [id]. *)
Definition borrow_inserted (id user_id book_id : string) (now due : Time) (d : DB) : DB :=
  mkDB (users d) (books d)
       (<[id := mkBorrowRow user_id book_id now due None]> (borrows d)).

(** The store after the return date of the record [id] was set to [now]. *)
Definition borrow_closed (id : string) (now : Time) (d : DB) : DB :=
  mkDB (users d) (books d) (alter (set_return_date now) id (borrows d)).

(** The world of [BorrowBook] once the availability read and the update of
    the flag to false have run. *)
Definition flag_cleared (bookID : string) (w : World) : World :=
  let w1 := after (SelectAvailable bookID) (db w) w in
  after (UpdateAvailable bookID false) (books_updated bookID false (db w1)) w1.


(** The world a successful [ReturnBook] leaves. *)
Definition returned (borrowID bookID : string) (w : World) : World :=
  let w1 := after (SelectBorrowBook borrowID) (db w) w in
  let w2 := after (UpdateAvailable bookID true) (books_updated bookID true (db w1)) w1 in
  after (UpdateReturnDate borrowID) (borrow_closed borrowID (clock w) (db w2)) w2.

(** A small store: one user, an available book, a borrowed book and its open
    borrow record. *)
Definition ann : UserRow := mkUserRow "Ann" "ann@x.com" "password123".

Definition foo : BookRow := mkBookRow "Foo" "Bar" "111" true.

Definition baz : BookRow := mkBookRow "Baz" "Qux" "222" false.

Definition loan : BorrowRow := mkBorrowRow "u1" "b2" 50 1209650 None.

Definition sample_db : DB :=
  mkDB (<["u1" := ann]> ∅) (<["b1" := foo]> (<["b2" := baz]> ∅)) (<["r1" := loan]> ∅).

Definition sample_world : World := boot sample_db 100.

(** The world [w'] differs from [w] at most in the trace and in the faults
    still to come. *)
Definition same_state (w w' : World) : Prop :=
  db w' = db w ∧ clock w' = clock w ∧ stdout w' = stdout w ∧ entropy w' = entropy w.

(** The requests that only consult the store. *)
Definition is_query (op : Op) : bool :=
  match op with
  | OpLoginUser _ | OpGetBook _ | OpListBooks _ | OpCheckBookAvailability _ => true
  | _ => false
  end.

(** The required fields of a request, as the façade checks them. *)
Definition missing_required (op : Op) : bool :=
  match op with
  | OpRegisterUser req =>
      is_empty (pb.reg_Name req) || is_empty (pb.reg_Email req) || is_empty (pb.reg_Password req)
  | OpLoginUser req => is_empty (pb.login_Email req) || is_empty (pb.login_Password req)
  | OpCreateBook req =>
      match pb.create_Book req with
      | None => true
      | Some book => is_empty (pb.Title book) || is_empty (pb.Author book)
      end
  | OpGetBook req => is_empty (pb.get_Id req)
  | OpListBooks _ => false
  | OpBorrowBook req => is_empty (pb.borrow_UserId req) || is_empty (pb.borrow_BookId req)
  | OpReturnBook req => is_empty (pb.return_BorrowId req)
  | OpCheckBookAvailability req => is_empty (pb.check_BookId req)
  end.

(** The error a request ends with, if it does. *)
Definition failure_of `{Bcrypt} (op : Op) (w : World) : option Status :=
  match op with
  | OpRegisterUser req => failure (LibraryService.RegisterUser req w).1
  | OpLoginUser req => failure (LibraryService.LoginUser req w).1
  | OpCreateBook req => failure (LibraryService.CreateBook req w).1
  | OpGetBook req => failure (LibraryService.GetBook req w).1
  | OpListBooks req => failure (LibraryService.ListBooks req w).1
  | OpBorrowBook req => failure (LibraryService.BorrowBook req w).1
  | OpReturnBook req => failure (LibraryService.ReturnBook req w).1
  | OpCheckBookAvailability req => failure (LibraryService.CheckBookAvailability req w).1
  end.


(** The value of the [page_size] parameter as the handler reads it. *)
Definition page_size_read (pageSizeParam : string) : Z :=
  if is_empty pageSizeParam then 10
  else match RESTServer.parseInt32 pageSizeParam with
       | Ok size => size
       | Err _ => 10
       end.

(** The language of a regular expression. *)
Inductive matches : regex → string → Prop :=
  | m_eps : matches Eps ""
  | m_class p c : p c = true → matches (Class p) (String c "")
  | m_seq r1 r2 s1 s2 : matches r1 s1 → matches r2 s2 → matches (Seq r1 r2) (s1 +:+ s2)
  | m_alt_l r1 r2 s : matches r1 s → matches (Alt r1 r2) s
  | m_alt_r r1 r2 s : matches r2 s → matches (Alt r1 r2) s
  | m_star_nil r : matches (Star r) ""
  | m_star_app r s1 s2 : matches r s1 → matches (Star r) s2 → matches (Star r) (s1 +:+ s2).

(** Every character of the string satisfies [p]. *)
Fixpoint all_chars (p : ascii → bool) (s : string) : bool :=
  match s with
  | EmptyString => true
  | String c s' => p c && all_chars p s'
  end.

(** The characters of the local part and of the domain of an email. *)
Definition local_char (c : ascii) : bool := alnum c || one_of "._%+-" c.

Definition domain_char (c : ascii) : bool := alnum c || one_of ".-" c.

(** The changes one statement of the program can make to the store. *)
Inductive db_step (d : DB) : DB → Prop :=
  | step_same : db_step d d
  | step_user id u :
      users d !! id = None →
      (∀ id' u', users d !! id' = Some u' → u_email u' ≠ u_email u) →
      db_step d (mkDB (<[id := u]> (users d)) (books d) (borrows d))
  | step_book id b :
      books d !! id = None →
      (∀ id' b', books d !! id' = Some b' → b_isbn b' ≠ b_isbn b) →
      db_step d (mkDB (users d) (<[id := b]> (books d)) (borrows d))
  | step_flag id a : db_step d (books_updated id a d)
  | step_borrow id r :
      borrows d !! id = None →
      is_Some (users d !! br_user_id r) → is_Some (books d !! br_book_id r) →
      is_open r →
      db_step d (mkDB (users d) (books d) (<[id := r]> (borrows d)))
  | step_close id t : db_step d (borrow_closed id t d).

(** Nothing is deleted and nothing but the availability flag and the return
    date is rewritten: user rows stay as they are; a book keeps its title,
    author and ISBN; a borrow record keeps its borrower, book, borrow date
    and due date, and once closed it stays closed. *)
Definition keeps (d d' : DB) : Prop :=
  users d ⊆ users d' ∧
  (∀ id b, books d !! id = Some b →
     ∃ b', books d' !! id = Some b' ∧
           b_title b' = b_title b ∧ b_author b' = b_author b ∧ b_isbn b' = b_isbn b) ∧
  (∀ id r, borrows d !! id = Some r →
     ∃ r', borrows d' !! id = Some r' ∧
           br_user_id r' = br_user_id r ∧ br_book_id r' = br_book_id r ∧
           br_borrow_date r' = br_borrow_date r ∧ br_due_date r' = br_due_date r ∧
           (br_return_date r ≠ None → br_return_date r' ≠ None)).




(** The environment fails the first statement of the request, or lets the
    first run and fails the second. *)
Definition fails_early (w : World) : Prop :=
  (∃ msg rest, faults w = Some msg :: rest) ∨
  (∃ msg rest, faults w = None :: Some msg :: rest).

(** * Properties *)

(** ** Statements on the pool *)

Lemma calm_next_fault w : calm w → next_fault w = None.
Proof.
  unfold calm, next_fault. destruct (faults w) as [|[msg|] rest]; try done.
  intros Hc. by inversion Hc.
Qed.

Lemma calm_after s d w : calm w → calm (after s d w).
Proof.
  unfold calm, after. simpl. destruct (faults w) as [|f rest]; simpl; [done|].
  intros Hc. by inversion Hc.
Qed.

Lemma calm_boot d now : calm (boot d now).
Proof. constructor. Qed.

Lemma statement_runs {A} s (run : World → res cause A * DB) w :
  next_fault w = None →
  Pool.statement s run w = ((run (sent s w)).1, after s (run (sent s w)).2 w).
Proof.
  unfold next_fault, Pool.statement, after. simpl.
  destruct (faults w) as [|[msg|] rest] eqn:Hf; intros Hn; try done;
    destruct (run (sent s w)) as [r d]; simpl; try done.
  unfold with_db, with_faults. simpl. by rewrite Hf.
Qed.

Lemma statement_fails {A} s (run : World → res cause A * DB) w msg rest :
  faults w = Some msg :: rest →
  Pool.statement s run w = (Err (PgError msg), with_faults rest (sent s w)).
Proof. unfold Pool.statement. simpl. by intros ->. Qed.

(** What every statement does to the world, whether or not it is failed. *)
Lemma statement_effect {A} s (run : World → res cause A * DB) w :
  let rw := Pool.statement s run w in
  stmts rw.2 = stmts w ++ [s] ∧ faults rw.2 = tail (faults w) ∧
  clock rw.2 = clock w ∧ stdout rw.2 = stdout w ∧ entropy rw.2 = entropy w ∧
  ((∃ msg, next_fault w = Some msg ∧ rw.1 = Err (PgError msg) ∧ db rw.2 = db w) ∨
   (next_fault w = None ∧ rw.1 = (run (sent s w)).1 ∧ db rw.2 = (run (sent s w)).2)).
Proof.
  unfold Pool.statement, next_fault. simpl.
  destruct (faults w) as [|[msg|] rest] eqn:Hf; simpl.
  - destruct (run (sent s w)) as [r d]. simpl. rewrite Hf. eauto 10.
  - repeat split; eauto 10.
  - destruct (run (sent s w)) as [r d]. simpl. eauto 10.
Qed.

Lemma select_available_found id b w :
  next_fault w = None → books (db w) !! id = Some b →
  Pool.select_available id w = (Ok (b_available b), after (SelectAvailable id) (db w) w).
Proof.
  intros Hn Hb. unfold Pool.select_available. rewrite statement_runs by done.
  simpl. by rewrite Hb.
Qed.

Lemma select_available_missing id w :
  next_fault w = None → books (db w) !! id = None →
  Pool.select_available id w = (Err ErrNoRows, after (SelectAvailable id) (db w) w).
Proof.
  intros Hn Hb. unfold Pool.select_available. rewrite statement_runs by done.
  simpl. by rewrite Hb.
Qed.

Lemma update_available_runs id a w :
  next_fault w = None →
  Pool.update_available id a w
  = (Ok tt, after (UpdateAvailable id a) (books_updated id a (db w)) w).
Proof.
  intros Hn. unfold Pool.update_available. by rewrite statement_runs by done.
Qed.


Lemma insert_borrow_dangling user_id book_id due w :
  next_fault w = None →
  users (db w) !! user_id = None ∨ books (db w) !! book_id = None →
  Pool.insert_borrow user_id book_id due w
  = (Err (PgError foreign_key_violation), after (InsertBorrow user_id book_id due) (db w) w).
Proof.
  intros Hn Hd. unfold Pool.insert_borrow. rewrite statement_runs by done. simpl.
  destruct Hd as [Hd|Hd].
  - rewrite (bool_decide_eq_false_2 (is_Some (users (db w) !! user_id))); [done|].
    rewrite Hd. by intros [? ?].
  - rewrite (bool_decide_eq_false_2 (is_Some (books (db w) !! book_id))).
    + by rewrite andb_false_r.
    + rewrite Hd. by intros [? ?].
Qed.

Lemma select_borrow_book_found id r w :
  next_fault w = None → borrows (db w) !! id = Some r →
  Pool.select_borrow_book id w = (Ok (br_book_id r), after (SelectBorrowBook id) (db w) w).
Proof.
  intros Hn Hr. unfold Pool.select_borrow_book. rewrite statement_runs by done.
  simpl. by rewrite Hr.
Qed.

Lemma update_return_date_runs id w :
  next_fault w = None →
  Pool.update_return_date id w
  = (Ok tt, after (UpdateReturnDate id) (borrow_closed id (clock w) (db w)) w).
Proof.
  intros Hn. unfold Pool.update_return_date. by rewrite statement_runs by done.
Qed.

Lemma gen_random_uuid_fresh {V} (t : gmap string V) : t !! gen_random_uuid t = None.
Proof. apply not_elem_of_dom. unfold gen_random_uuid. apply is_fresh. Qed.

(** ** Borrowing *)

(** C3.  A borrow request on a book whose availability flag reads false
    fails with the error "book is not available"; the only statement sent is
    the read, so no borrow record is inserted and the store, the clock and
    the output are left as they were. *)
Theorem borrow_unavailable_rejected userID bookID dueDate w b :
  next_fault w = None →
  books (db w) !! bookID = Some b →
  b_available b = false →
  ∃ w',
    BookRepository.BorrowBook userID bookID dueDate w
    = (Err (Errorf "book is not available" None), w') ∧
    Error (Errorf "book is not available" None) = "book is not available" ∧
    db w' = db w ∧
    stmts w' = stmts w ++ [SelectAvailable bookID] ∧
    clock w' = clock w ∧ stdout w' = stdout w ∧ entropy w' = entropy w.
Proof.
  intros Hn Hb Ha. exists (after (SelectAvailable bookID) (db w) w).
  unfold BookRepository.BorrowBook.
  rewrite (select_available_found _ b) by done. rewrite Ha. simpl. done.
Qed.

(** C4.  When the insert of the borrow record fails with [err] after the
    flag was set to false, [BorrowBook] sends exactly one more statement, the
    update of the flag back to true, and returns the insert's error wrapped
    as "failed to create borrow record", whether that update runs or is
    failed; a failed revert only adds a line to the output. *)
Theorem borrow_insert_failure_compensated userID bookID dueDate w b err w3 :
  books (db w) !! bookID = Some b →
  b_available b = true →
  next_fault w = None →
  next_fault (after (SelectAvailable bookID) (db w) w) = None →
  Pool.insert_borrow userID bookID dueDate (flag_cleared bookID w) = (Err err, w3) →
  ∃ w',
    BookRepository.BorrowBook userID bookID dueDate w
    = (Err (Errorf "failed to create borrow record" (Some err)), w') ∧
    stmts w' = stmts w ++ [SelectAvailable bookID; UpdateAvailable bookID false;
                           InsertBorrow userID bookID dueDate;
                           UpdateAvailable bookID true] ∧
    (next_fault w3 = None →
       stdout w' = stdout w ∧ db w' = books_updated bookID true (db w3)) ∧
    (∀ msg, next_fault w3 = Some msg →
       stdout w' = stdout w ++ ["Failed to revert book availability: " +:+ msg +:+ newline] ∧
       db w' = db w3).
Proof.
  intros Hb Ha Hn1 Hn2 Hins.
  unfold BookRepository.BorrowBook.
  rewrite (select_available_found _ b) by done. rewrite Ha. simpl negb. cbv iota.
  rewrite update_available_runs by done.
  fold (flag_cleared bookID w). rewrite Hins.
  pose proof (statement_effect (InsertBorrow userID bookID dueDate)
    (λ w0 : World,
       let d := db w0 in
       if negb (bool_decide (is_Some (users d !! userID))
                && bool_decide (is_Some (books d !! bookID)))
       then (Err (PgError foreign_key_violation), d)
       else
         let id := gen_random_uuid (borrows d) in
         (Ok id, mkDB (users d) (books d)
                    (<[id := mkBorrowRow userID bookID (clock w0) dueDate None]> (borrows d))))
    (flag_cleared bookID w)) as Hi.
  change (Pool.statement _ _ (flag_cleared bookID w))
    with (Pool.insert_borrow userID bookID dueDate (flag_cleared bookID w)) in Hi.
  rewrite Hins in Hi. simpl in Hi.
  destruct Hi as (Hs3 & _ & _ & Ho3 & _ & _).
  pose proof (statement_effect (UpdateAvailable bookID true)
    (λ w0 : World, let d := db w0 in
       (Ok tt, mkDB (users d) (alter (set_available true) bookID (books d)) (borrows d))) w3) as Hr.
  change (Pool.statement _ _ w3) with (Pool.update_available bookID true w3) in Hr.
  destruct (Pool.update_available bookID true w3) as [revert w4]. simpl in Hr.
  destruct Hr as (Hs4 & _ & _ & Ho4 & _ & Hcase).
  eexists. split; [reflexivity|].
  assert (Hst : stmts w4 = stmts w ++ [SelectAvailable bookID; UpdateAvailable bookID false;
                           InsertBorrow userID bookID dueDate; UpdateAvailable bookID true]).
  { rewrite Hs4, Hs3. unfold flag_cleared. simpl. by rewrite <- !app_assoc. }
  assert (Hout : stdout w4 = stdout w).
  { rewrite Ho4, Ho3. done. }
  destruct Hcase as [(msg & Hf & -> & Hd)|(Hf & -> & Hd)]; simpl.
  - split; [done|]. split.
    + intros Hnone. congruence.
    + intros msg' Hm. rewrite Hm in Hf. injection Hf as ->. by rewrite Hout, Hd.
  - split; [done|]. split.
    + intros _. by rewrite Hout, Hd.
    + intros msg' Hm. congruence.
Qed.

Lemma is_empty_false s : s ≠ "" → is_empty s = false.
Proof. intros Hs. unfold is_empty. by apply String.eqb_neq. Qed.

Lemma is_empty_true s : is_empty s = true → s = "".
Proof. unfold is_empty. by intros ?%String.eqb_eq. Qed.

Lemma select_book_by_id_found id b w :
  next_fault w = None → books (db w) !! id = Some b →
  Pool.select_book_by_id id w
  = (Ok (pb.mkBook id (b_title b) (b_author b) (b_isbn b) (b_available b)),
     after (SelectBookById id) (db w) w).
Proof.
  intros Hn Hb. unfold Pool.select_book_by_id. rewrite statement_runs by done.
  simpl. by rewrite Hb.
Qed.

Lemma select_book_by_id_missing id w :
  next_fault w = None → books (db w) !! id = None →
  Pool.select_book_by_id id w = (Err ErrNoRows, after (SelectBookById id) (db w) w).
Proof.
  intros Hn Hb. unfold Pool.select_book_by_id. rewrite statement_runs by done.
  simpl. by rewrite Hb.
Qed.



(** ** Returning *)


Lemma ReturnBook_runs borrowID w r :
  calm w →
  borrows (db w) !! borrowID = Some r →
  BookRepository.ReturnBook borrowID w = (Ok tt, returned borrowID (br_book_id r) w).
Proof.
  intros Hc Hr.
  pose proof (calm_after (SelectBorrowBook borrowID) (db w) w Hc) as Hc1.
  unfold BookRepository.ReturnBook.
  rewrite (select_borrow_book_found _ r) by auto using calm_next_fault.
  rewrite update_available_runs by auto using calm_next_fault.
  rewrite update_return_date_runs; [done|].
  by apply calm_next_fault, calm_after.
Qed.




(** ** Registration and credentials *)


Lemma select_where_elem {V} (P : V → bool) (t : gmap string V) id v :
  (id, v) ∈ select_where P t ↔ t !! id = Some v ∧ P v = true.
Proof.
  unfold select_where. rewrite elem_of_map_to_list, map_lookup_filter_Some. done.
Qed.

Lemma exists_where_false {V} (P : V → bool) (t : gmap string V) :
  exists_where P t = false → ∀ id v, t !! id = Some v → P v = false.
Proof.
  unfold exists_where. intros Hf%bool_decide_eq_false id v Hv.
  destruct (P v) eqn:HP; [|done]. exfalso. apply Hf. intros He.
  by eapply (map_filter_empty_not_lookup _ t id v He).
Qed.

Lemma select_where_insert_only {V} (P : V → bool) (t : gmap string V) id v :
  (∀ id' v', t !! id' = Some v' → P v' = false) → P v = true →
  select_where P (<[id := v]> t) = [(id, v)].
Proof.
  intros Hnone Hv. unfold select_where.
  rewrite map_filter_insert_True by done.
  assert (filter (λ kv : string * V, P kv.2 = true) t = ∅) as ->.
  { apply map_empty_filter_2. intros id' v' Hl. simpl. rewrite (Hnone _ _ Hl). done. }
  rewrite insert_empty. apply map_to_list_singleton.
Qed.

(** What a successful [Create] has done. *)
Lemma Create_succeeded `{Bcrypt} name email password w user w1 :
  UserRepository.Create name email password w = (Ok user, w1) →
  ∃ hash,
    GenerateFromPassword password DefaultCost (entropy w) = Ok hash ∧
    user = pb.mkUser (gen_random_uuid (users (db w))) name email ∧
    (∀ id u, users (db w) !! id = Some u → u_email u ≠ email) ∧
    users (db w1) = <[pb.Id user := mkUserRow name email hash]> (users (db w)) ∧
    books (db w1) = books (db w) ∧ borrows (db w1) = borrows (db w).
Proof.
  unfold UserRepository.Create.
  destruct (GenerateFromPassword password DefaultCost (entropy w)) as [hash|msg] eqn:Hg;
    [|done].
  unfold Pool.insert_user.
  match goal with |- context [Pool.statement ?s ?run ?w0] =>
    pose proof (statement_effect s run w0) as He;
    destruct (Pool.statement s run w0) as [r w'] end.
  simpl in He.
  destruct He as (_ & _ & _ & _ & _ & [(msg & _ & -> & _)|(_ & -> & Hd)]); [done|].
  destruct (negb _) eqn:Hfit in Hd |- *; [done|].
  destruct (exists_where _ _) eqn:Hex in Hd |- *; [done|].
  simpl in Hd |- *. intros [= <- <-]. exists hash. rewrite Hd. simpl.
  repeat split; try done.
  intros id u Hu Heq. pose proof (exists_where_false _ _ Hex id u Hu) as Hne.
  simpl in Hne. apply String.eqb_neq in Hne. done.
Qed.

Lemma VerifyCredentials_only_row `{Bcrypt} email password w id u :
  next_fault w = None →
  select_where (λ u, String.eqb (u_email u) email) (users (db w)) = [(id, u)] →
  CompareHashAndPassword (u_password_hash u) password = true →
  UserRepository.VerifyCredentials email password w
  = (Ok (pb.mkUser id (u_name u) (u_email u)), after (SelectUserByEmail email) (db w) w).
Proof.
  intros Hn Hsel Hcmp. unfold UserRepository.VerifyCredentials, Pool.select_user_by_email.
  rewrite statement_runs by done. simpl. rewrite Hsel. simpl. by rewrite Hcmp.
Qed.

(** C9.  When registering a name, an email and a password succeeds, a
    verification of that email and password that follows (its lookup not
    being failed by the environment) succeeds and returns the user that
    registration returned: the same identifier, name and email; so does a
    login through the façade. *)
Theorem register_then_verify `{Bcrypt} req w response w1 :
  LibraryService.RegisterUser req w = (Ok response, w1) →
  next_fault w1 = None →
  let user := pb.reg_User response in
  ∃ w2,
    UserRepository.VerifyCredentials (pb.reg_Email req) (pb.reg_Password req) w1
    = (Ok user, w2) ∧
    pb.Name user = pb.reg_Name req ∧ pb.Email user = pb.reg_Email req ∧
    LibraryService.LoginUser (pb.mkLoginUserRequest (pb.reg_Email req) (pb.reg_Password req)) w1
    = (Ok (pb.mkLoginUserResponse user "sample-jwt-token"), w2).
Proof.
  unfold LibraryService.RegisterUser.
  destruct (is_empty (pb.reg_Name req) || is_empty (pb.reg_Email req)
            || is_empty (pb.reg_Password req)) eqn:Hempty; [done|].
  apply orb_false_elim in Hempty as [[Hn He]%orb_false_elim Hp].
  destruct (negb _); [done|].
  destruct (String.length (pb.reg_Password req) <? 8)%nat; [done|].
  destruct (UserRepository.Create _ _ _ w) as [[user|err] w'] eqn:Hc; [|done].
  intros [= <- <-] Hnf. simpl.
  destruct (Create_succeeded _ _ _ _ _ _ Hc) as (hash & Hg & -> & Hfresh & Hu & _ & _).
  simpl in Hu.
  assert (Hv : UserRepository.VerifyCredentials (pb.reg_Email req) (pb.reg_Password req) w'
               = (Ok (pb.mkUser (gen_random_uuid (users (db w))) (pb.reg_Name req)
                        (pb.reg_Email req)),
                  after (SelectUserByEmail (pb.reg_Email req)) (db w') w')).
  { apply (VerifyCredentials_only_row _ _ _ _
             (mkUserRow (pb.reg_Name req) (pb.reg_Email req) hash)); [done| |].
    - rewrite Hu. apply select_where_insert_only.
      + intros id u Hl. apply String.eqb_neq. by eapply Hfresh.
      + apply String.eqb_refl.
    - simpl. by eapply compare_generated. }
  eexists. split; [exact Hv|]. split; [done|split; [done|]].
  unfold LibraryService.LoginUser. simpl. rewrite He, Hp. simpl. by rewrite Hv.
Qed.

(** C10.  Take a world with no user row for the email, and a world where
    the email has a row but every row with that email holds a hash that
    rejects the password.  With the lookup not failed in either,
    [VerifyCredentials] answers both with the same error, "invalid
    credentials", and [LoginUser] gives the same answer in both: its result
    does not tell the two worlds apart. *)
Theorem verify_failure_indistinguishable `{Bcrypt} email password w_absent w_wrong :
  next_fault w_absent = None →
  next_fault w_wrong = None →
  (∀ id u, users (db w_absent) !! id = Some u → u_email u ≠ email) →
  (∃ id u, users (db w_wrong) !! id = Some u ∧ u_email u = email) →
  (∀ id u, users (db w_wrong) !! id = Some u → u_email u = email →
           CompareHashAndPassword (u_password_hash u) password = false) →
  (UserRepository.VerifyCredentials email password w_absent).1
  = Err (Errorf "invalid credentials" None) ∧
  (UserRepository.VerifyCredentials email password w_wrong).1
  = Err (Errorf "invalid credentials" None) ∧
  (LibraryService.LoginUser (pb.mkLoginUserRequest email password) w_absent).1
  = (LibraryService.LoginUser (pb.mkLoginUserRequest email password) w_wrong).1 ∧
  (email ≠ "" → password ≠ "" →
   (LibraryService.LoginUser (pb.mkLoginUserRequest email password) w_wrong).1
   = Err (mkStatus Unauthenticated "invalid credentials")).
Proof.
  intros Hna Hnw Habsent _ Hwrong.
  assert (Ha : (UserRepository.VerifyCredentials email password w_absent).1
               = Err (Errorf "invalid credentials" None)).
  { unfold UserRepository.VerifyCredentials, Pool.select_user_by_email.
    rewrite statement_runs by done. simpl.
    destruct (select_where _ _) as [|[id u] rest] eqn:Hsel; [done|].
    assert ((id, u) ∈ select_where (λ u, String.eqb (u_email u) email) (users (db w_absent)))
      as [Hl Hp%String.eqb_eq]%select_where_elem by (rewrite Hsel; left).
    by destruct (Habsent id u Hl). }
  assert (Hw : (UserRepository.VerifyCredentials email password w_wrong).1
               = Err (Errorf "invalid credentials" None)).
  { unfold UserRepository.VerifyCredentials, Pool.select_user_by_email.
    rewrite statement_runs by done. simpl.
    destruct (select_where _ _) as [|[id u] rest] eqn:Hsel; [done|].
    assert ((id, u) ∈ select_where (λ u, String.eqb (u_email u) email) (users (db w_wrong)))
      as [Hl Hp%String.eqb_eq]%select_where_elem by (rewrite Hsel; left).
    simpl. by rewrite (Hwrong id u Hl Hp). }
  split; [done|split; [done|]].
  unfold LibraryService.LoginUser. simpl.
  destruct (UserRepository.VerifyCredentials email password w_absent) as [ra wa'].
  destruct (UserRepository.VerifyCredentials email password w_wrong) as [rw ww'].
  simpl in Ha, Hw. subst ra rw.
  split.
  - by destruct (is_empty email || is_empty password).
  - intros He Hp. by rewrite !is_empty_false by done.
Qed.

(** ** The HTTP adapter *)

(** C8, amended.  A request whose body cannot be bound is answered 400
    without calling the façade.  Otherwise the status depends on the
    handler: a success is 201 for registerUser and createBook and 200 for the
    others; a failure of the façade operation is 401 for loginUser and 404
    for getBook whatever its category, 404 for checkBookAvailability when
    the category is NotFound, and 500 in every other case. *)
Theorem rest_status_by_handler `{Bcrypt} rq w :
  status (RESTServer.serve rq w).1
  = match facade_outcome rq w with
    | None => 400
    | Some None => status_of_success rq
    | Some (Some st) => status_of_failure rq (st_code st)
    end.
Proof.
  destruct rq as [[req|]|[req|]|[[[[title author] isbn] available]|]|id|page_size
                  |id [userID|]|[borrowID|]|id]; simpl; try done.
  - unfold RESTServer.registerUser.
    by destruct (LibraryService.RegisterUser req w) as [[?|?] ?].
  - unfold RESTServer.loginUser.
    by destruct (LibraryService.LoginUser req w) as [[?|?] ?].
  - unfold RESTServer.createBook.
    by destruct (LibraryService.CreateBook _ w) as [[?|?] ?].
  - unfold RESTServer.getBook.
    by destruct (LibraryService.GetBook _ w) as [[?|?] ?].
  - unfold RESTServer.listBooks.
    by destruct (LibraryService.ListBooks _ w) as [[?|?] ?].
  - unfold RESTServer.borrowBook.
    by destruct (LibraryService.BorrowBook _ w) as [[?|?] ?].
  - unfold RESTServer.returnBook.
    by destruct (LibraryService.ReturnBook _ w) as [[?|?] ?].
  - unfold RESTServer.checkBookAvailability.
    destruct (LibraryService.CheckBookAvailability _ w) as [[?|st] ?]; simpl; [done|].
    by destruct (decide (st_code st = NotFound)).
Qed.

(** ** The ledger invariant *)

Lemma consistent_same_ledger d d' :
  books d' = books d → borrows d' = borrows d → consistent d → consistent d'.
Proof.
  unfold consistent, ledger_invariant, borrows_reference_books, one_open_borrow,
    open_borrow_of.
  intros -> ->. done.
Qed.

Lemma consistent_empty : consistent empty_db.
Proof.
  split; [|split].
  - intros id b Hb. simpl in Hb. by rewrite lookup_empty in Hb.
  - intros id r Hr. simpl in Hr. by rewrite lookup_empty in Hr.
  - intros id1 id2 r1 r2 Hr. simpl in Hr. by rewrite lookup_empty in Hr.
Qed.

(** Adding an available book under a fresh identifier. *)
Lemma consistent_book_added d id title author isbn :
  consistent d → books d !! id = None →
  consistent (mkDB (users d) (<[id := mkBookRow title author isbn true]> (books d)) (borrows d)).
Proof.
  intros (Hl & Hr & Ho) Hfresh. split; [|split].
  - intros k b. simpl. unfold open_borrow_of. simpl.
    destruct (decide (id = k)) as [<-|Hne].
    + rewrite lookup_insert_eq. intros [= <-]. simpl. split; [done|].
      intros (rid & r & Hrid & Hbk & _). destruct (Hr rid r Hrid) as [b' Hb'].
      rewrite Hbk in Hb'. congruence.
    + rewrite lookup_insert_ne by done. apply Hl.
  - intros rid r Hrid. simpl in *. destruct (Hr rid r Hrid) as [b' Hb'].
    destruct (decide (id = br_book_id r)) as [Heq|Hne].
    * rewrite <- Heq in Hb'. congruence.
    * rewrite lookup_insert_ne by done. by eexists.
  - exact Ho.
Qed.

(** Borrowing an available book: the flag goes to false and an open record
    is added under a fresh identifier. *)
Lemma consistent_borrowed d rid uid bid now due b :
  consistent d → books d !! bid = Some b → b_available b = true →
  borrows d !! rid = None →
  consistent (mkDB (users d) (alter (set_available false) bid (books d))
                   (<[rid := mkBorrowRow uid bid now due None]> (borrows d))).
Proof.
  intros (Hl & Hr & Ho) Hb Ha Hfresh.
  assert (Hnone : ¬ open_borrow_of d bid).
  { intros Hopen. apply (Hl bid b Hb) in Hopen. congruence. }
  split; [|split].
  - intros k bk. simpl. unfold open_borrow_of. simpl.
    destruct (decide (bid = k)) as [<-|Hne].
    + rewrite lookup_alter_eq, Hb. intros [= <-]. simpl. split; [|done].
      intros _. exists rid, (mkBorrowRow uid bid now due None).
      by rewrite lookup_insert_eq.
    + rewrite lookup_alter_ne by done. intros Hbk. rewrite (Hl k bk Hbk).
      unfold open_borrow_of. split.
      * intros (i & r & Hi & Hk & Hop). exists i, r.
        rewrite lookup_insert_ne; [done|]. intros <-. congruence.
      * intros (i & r & Hi & Hk & Hop). exists i, r.
        destruct (decide (rid = i)) as [<-|Hni].
        -- rewrite lookup_insert_eq in Hi. injection Hi as <-. simpl in Hk. done.
        -- by rewrite lookup_insert_ne in Hi.
  - intros i r. simpl. destruct (decide (rid = i)) as [<-|Hni].
    + rewrite lookup_insert_eq. intros [= <-]. simpl.
      rewrite lookup_alter_eq, Hb. by eexists.
    + rewrite lookup_insert_ne by done. intros Hi.
      destruct (Hr i r Hi) as [b' Hb'].
      destruct (decide (bid = br_book_id r)) as [<-|Hnb].
      * rewrite lookup_alter_eq, Hb. by eexists.
      * rewrite lookup_alter_ne by done. by eexists.
  - intros i1 i2 r1 r2. simpl.
    destruct (decide (rid = i1)) as [<-|Hn1]; destruct (decide (rid = i2)) as [<-|Hn2];
      [done| | |].
    + rewrite lookup_insert_eq, lookup_insert_ne by done.
      intros [= <-] H2 Hsame _ Hop2. simpl in Hsame.
      destruct Hnone. by exists i2, r2.
    + rewrite lookup_insert_eq, lookup_insert_ne by done.
      intros H1 [= <-] Hsame Hop1 _. simpl in Hsame.
      destruct Hnone. by exists i1, r1.
    + rewrite !lookup_insert_ne by done. apply Ho.
Qed.

(** Returning an open borrow: the flag goes to true and the record is closed. *)
Lemma consistent_returned d rid r now :
  consistent d → borrows d !! rid = Some r → is_open r →
  consistent (mkDB (users d) (alter (set_available true) (br_book_id r) (books d))
                   (alter (set_return_date now) rid (borrows d))).
Proof.
  intros (Hl & Hr & Ho) Hrid Hopen.
  assert (Hstill : ∀ i r', alter (set_return_date now) rid (borrows d) !! i = Some r' →
                           is_open r' → i ≠ rid ∧ borrows d !! i = Some r').
  { intros i r' Hi Hop. destruct (decide (rid = i)) as [<-|Hni].
    - rewrite lookup_alter_eq, Hrid in Hi. injection Hi as <-. done.
    - rewrite lookup_alter_ne in Hi by done. done. }
  split; [|split].
  - intros k bk. simpl. unfold open_borrow_of. simpl.
    destruct (decide (br_book_id r = k)) as [<-|Hne].
    + rewrite lookup_alter_eq. destruct (books d !! br_book_id r) as [b|]; [|done].
      intros [= <-]. simpl. split; [done|].
      intros (i & r' & Hi & Hk & Hop). destruct (Hstill i r' Hi Hop) as [Hni Hi'].
      destruct Hni. by apply (Ho i rid r' r).
    + rewrite lookup_alter_ne by done. intros Hbk. rewrite (Hl k bk Hbk).
      unfold open_borrow_of. split.
      * intros (i & r' & Hi & Hk & Hop). exists i, r'.
        rewrite lookup_alter_ne; [done|]. intros <-. congruence.
      * intros (i & r' & Hi & Hk & Hop). exists i, r'.
        by destruct (Hstill i r' Hi Hop).
  - intros i r'. simpl. intros Hi.
    assert (∃ r0, borrows d !! i = Some r0 ∧ br_book_id r' = br_book_id r0) as (r0 & Hi0 & ->).
    { destruct (decide (rid = i)) as [<-|Hni].
      - rewrite lookup_alter_eq, Hrid in Hi. injection Hi as <-. by exists r.
      - rewrite lookup_alter_ne in Hi by done. by exists r'. }
    destruct (Hr i r0 Hi0) as [b' Hb'].
    destruct (decide (br_book_id r = br_book_id r0)) as [Heq|Hnb].
    + rewrite <- Heq in *. rewrite lookup_alter_eq, Hb'. by eexists.
    + rewrite lookup_alter_ne by done. by eexists.
  - intros i1 i2 r1 r2. simpl. intros H1 H2 Hsame Hop1 Hop2.
    destruct (Hstill i1 r1 H1 Hop1) as [_ H1'].
    destruct (Hstill i2 r2 H2 Hop2) as [_ H2'].
    by apply (Ho i1 i2 r1 r2).
Qed.

Ltac statement_runs :=
  rewrite statement_runs
    by (apply calm_next_fault; repeat apply calm_after; assumption).

Ltac calm_after := repeat apply calm_after; assumption.

Lemma RegisterUser_keeps_ledger `{Bcrypt} req w :
  calm w →
  let w' := (LibraryService.RegisterUser req w).2 in
  calm w' ∧ books (db w') = books (db w) ∧ borrows (db w') = borrows (db w).
Proof.
  intros Hc. unfold LibraryService.RegisterUser.
  destruct (_ || _); [done|]. destruct (negb _); [done|].
  destruct (_ <? _)%nat; [done|].
  unfold UserRepository.Create.
  destruct (GenerateFromPassword _ _ _) as [hash|msg]; [|done].
  unfold Pool.insert_user.
  assert (Hc' : calm (next_entropy w)) by done.
  statement_runs. simpl.
  destruct (negb _); simpl; [split; [calm_after|done]|].
  destruct (exists_where _ _); simpl; (split; [calm_after|done]).
Qed.

Lemma LoginUser_reads `{Bcrypt} req w :
  calm w →
  let w' := (LibraryService.LoginUser req w).2 in calm w' ∧ db w' = db w.
Proof.
  intros Hc. unfold LibraryService.LoginUser.
  destruct (_ || _); [done|].
  unfold UserRepository.VerifyCredentials, Pool.select_user_by_email.
  statement_runs. simpl.
  destruct (select_where _ _) as [|[id u] rest]; simpl; [split; [calm_after|done]|].
  destruct (CompareHashAndPassword _ _); simpl; (split; [calm_after|done]).
Qed.

Lemma GetByID_reads id w :
  calm w →
  let w' := (BookRepository.GetByID id w).2 in calm w' ∧ db w' = db w.
Proof.
  intros Hc. unfold BookRepository.GetByID, Pool.select_book_by_id.
  statement_runs. simpl.
  destruct (books (db w) !! id); simpl; (split; [calm_after|done]).
Qed.

Lemma GetBook_reads req w :
  calm w →
  let w' := (LibraryService.GetBook req w).2 in calm w' ∧ db w' = db w.
Proof.
  intros Hc. unfold LibraryService.GetBook.
  destruct (is_empty _); [done|].
  pose proof (GetByID_reads (pb.get_Id req) w Hc) as Hg.
  by destruct (BookRepository.GetByID _ w) as [[?|?] ?].
Qed.

Lemma CheckBookAvailability_reads req w :
  calm w →
  let w' := (LibraryService.CheckBookAvailability req w).2 in calm w' ∧ db w' = db w.
Proof.
  intros Hc. unfold LibraryService.CheckBookAvailability.
  destruct (is_empty _); [done|].
  pose proof (GetByID_reads (pb.check_BookId req) w Hc) as Hg.
  by destruct (BookRepository.GetByID _ w) as [[?|?] ?].
Qed.

Lemma ListBooks_reads req w :
  calm w →
  let w' := (LibraryService.ListBooks req w).2 in calm w' ∧ db w' = db w.
Proof.
  intros Hc. unfold LibraryService.ListBooks, BookRepository.List, Pool.select_books_page.
  statement_runs. simpl.
  destruct (_ <? 0); simpl; (split; [calm_after|done]).
Qed.

Lemma CreateBook_consistent req w :
  calm w → consistent (db w) → disciplined (OpCreateBook req) w →
  let w' := (LibraryService.CreateBook req w).2 in calm w' ∧ consistent (db w').
Proof.
  intros Hc Hk Hd. unfold LibraryService.CreateBook. simpl in Hd.
  destruct (pb.create_Book req) as [book|]; [|done].
  destruct (_ || _); [done|].
  unfold BookRepository.Create, Pool.insert_book.
  statement_runs. simpl.
  destruct (negb _); simpl; [split; [calm_after|done]|].
  destruct (exists_where _ _); simpl; (split; [calm_after|try done]).
  rewrite Hd. apply consistent_book_added; [done|]. apply gen_random_uuid_fresh.
Qed.

Lemma alter_available_back id (t : gmap string BookRow) b :
  t !! id = Some b → b_available b = true →
  alter (set_available true) id (alter (set_available false) id t) = t.
Proof.
  intros Hb Ha. rewrite alter_alter_eq. apply alter_id.
  intros b'. rewrite Hb. intros [= <-]. destruct b. simpl in *. by subst.
Qed.

Lemma BorrowBook_consistent req w :
  calm w → consistent (db w) →
  let w' := (LibraryService.BorrowBook req w).2 in calm w' ∧ consistent (db w').
Proof.
  intros Hc Hk. unfold LibraryService.BorrowBook.
  destruct (_ || _); [done|].
  unfold BookRepository.BorrowBook, Pool.select_available.
  statement_runs. simpl.
  destruct (books (db w) !! pb.borrow_BookId req) as [b|] eqn:Hb; simpl;
    [|split; [calm_after|done]].
  destruct (b_available b) eqn:Ha; simpl; [|split; [calm_after|done]].
  unfold Pool.update_available, Pool.insert_borrow. statement_runs. simpl.
  statement_runs. simpl.
  rewrite lookup_alter_eq, Hb. simpl.
  rewrite andb_true_r.
  destruct (bool_decide (is_Some (users (db w) !! pb.borrow_UserId req))); simpl.
  - split; [calm_after|]. apply (consistent_borrowed _ _ _ _ _ _ b); try done.
    apply gen_random_uuid_fresh.
  - statement_runs. simpl.
    split; [calm_after|]. rewrite (alter_available_back _ _ b) by done.
    by destruct (db w).
Qed.

Lemma ReturnBook_consistent req w :
  calm w → consistent (db w) → disciplined (OpReturnBook req) w →
  let w' := (LibraryService.ReturnBook req w).2 in calm w' ∧ consistent (db w').
Proof.
  intros Hc Hk Hd. unfold LibraryService.ReturnBook. simpl in Hd.
  destruct (is_empty _); [done|].
  unfold BookRepository.ReturnBook, Pool.select_borrow_book.
  statement_runs. simpl.
  destruct (borrows (db w) !! pb.return_BorrowId req) as [r|] eqn:Hr; simpl;
    [|split; [calm_after|done]].
  unfold Pool.update_available. statement_runs. simpl.
  unfold Pool.update_return_date. statement_runs. simpl.
  split; [calm_after|]. by apply consistent_returned.
Qed.

Lemma run_op_consistent `{Bcrypt} op w :
  calm w → consistent (db w) → disciplined op w →
  calm (run_op op w) ∧ consistent (db (run_op op w)).
Proof.
  intros Hc Hk Hd. destruct op as [req|req|req|req|req|req|req|req]; simpl.
  - destruct (RegisterUser_keeps_ledger req w Hc) as (? & ? & ?).
    split; [done|]. by eapply consistent_same_ledger.
  - destruct (LoginUser_reads req w Hc) as [? Hdb]. by rewrite Hdb.
  - by apply CreateBook_consistent.
  - destruct (GetBook_reads req w Hc) as [? Hdb]. by rewrite Hdb.
  - destruct (ListBooks_reads req w Hc) as [? Hdb]. by rewrite Hdb.
  - by apply BorrowBook_consistent.
  - by apply ReturnBook_consistent.
  - destruct (CheckBookAvailability_reads req w Hc) as [? Hdb]. by rewrite Hdb.
Qed.

(** C2, amended.  Start in a world where no statement is failed and whose
    store is consistent (the empty store is), and serve requests one after
    the other, every created book being declared available and no borrow
    being returned a second time.  In every world so reached, a book's
    availability flag is false if and only if an open borrow record
    references it. *)
Theorem ledger_invariant_of_disciplined_runs `{Bcrypt} w0 w :
  calm w0 →
  consistent (db w0) →
  reachable disciplined w0 w →
  ledger_invariant (db w).
Proof.
  intros Hc Hk Hreach.
  cut (calm w ∧ consistent (db w)); [by intros (_ & ? & _)|].
  induction Hreach as [|w t Hreach IH Ht|w op Hreach IH Hop].
  - done.
  - done.
  - destruct IH as [Hcw Hkw]. by apply run_op_consistent.
Qed.

(** ** Examples: the theorems at concrete inputs *)



Lemma ledger_invariant_of_disciplined_runs_witness :
  ledger_invariant
    (db (@run_op example_bcrypt
           (OpCreateBook (pb.mkCreateBookRequest (Some (pb.mkBook "" "Foo" "Bar" "111" true))))
           (boot empty_db 0))).
Proof.
  apply (@ledger_invariant_of_disciplined_runs example_bcrypt (boot empty_db 0)).
  - apply calm_boot.
  - apply consistent_empty.
  - apply (@reach_serve example_bcrypt); [apply (@reach_start example_bcrypt)|]. reflexivity.
Defined.

(** C2 as stated fails: from the empty store, creating a book that the
    request declares unavailable gives a book whose flag is false with no
    borrow record at all. *)
Lemma ledger_invariant_broken_by_create :
  ∃ w, @reachable example_bcrypt any_request (boot empty_db 0) w ∧
       ¬ ledger_invariant (db w).
Proof.
  exists (@run_op example_bcrypt
            (OpCreateBook (pb.mkCreateBookRequest (Some (pb.mkBook "" "Foo" "Bar" "111" false))))
            (boot empty_db 0)).
  split.
  - apply (@reach_serve example_bcrypt); [apply (@reach_start example_bcrypt)|]. exact I.
  - intros Hinv.
    destruct (Hinv "0" (mkBookRow "Foo" "Bar" "111" false)) as [Hopen _];
      [vm_compute; reflexivity|].
    destruct (Hopen eq_refl) as (id & r & Hr & _).
    change (borrows _) with (∅ : gmap string BorrowRow) in Hr.
    by rewrite lookup_empty in Hr.
Defined.

Lemma borrow_unavailable_rejected_witness :
  ∃ w',
    BookRepository.BorrowBook "u1" "b2" 1209700 sample_world
    = (Err (Errorf "book is not available" None), w') ∧ db w' = db sample_world.
Proof.
  destruct (borrow_unavailable_rejected "u1" "b2" 1209700 sample_world baz)
    as (w' & Hrun & _ & Hdb & _); [done..|].
  by exists w'.
Defined.

Lemma borrow_insert_failure_compensated_witness :
  ∃ w',
    BookRepository.BorrowBook "u7" "b1" 1209700 sample_world
    = (Err (Errorf "failed to create borrow record" (Some (PgError foreign_key_violation))), w') ∧
    stmts w' = [SelectAvailable "b1"; UpdateAvailable "b1" false;
                InsertBorrow "u7" "b1" 1209700; UpdateAvailable "b1" true].
Proof.
  destruct (borrow_insert_failure_compensated "u7" "b1" 1209700 sample_world foo
              (PgError foreign_key_violation)
              (Pool.insert_borrow "u7" "b1" 1209700 (flag_cleared "b1" sample_world)).2)
    as (w' & Hrun & Hstmts & _); [done..|].
  by exists w'.
Defined.




(** C8 as stated fails: a registration with a short password is an
    InvalidArgument failure of the façade, and the handler answers 500, not
    400. *)
Lemma rest_invalid_argument_answered_500 :
  let rq := RESTServer.PostRegisterUser
              (Some (pb.mkRegisterUserRequest "Ann" "ann@x.com" "short")) in
  ∃ st,
    @facade_outcome example_bcrypt rq sample_world = Some (Some st) ∧
    st_code st = InvalidArgument ∧
    status_of_category (st_code st) = 400 ∧
    status (@RESTServer.serve example_bcrypt rq sample_world).1 = 500.
Proof. eexists. vm_compute. repeat split. Defined.

Lemma register_then_verify_witness :
  let req := pb.mkRegisterUserRequest "Bob" "bob@x.com" "password456" in
  ∃ w2,
    @UserRepository.VerifyCredentials example_bcrypt "bob@x.com" "password456"
      (@LibraryService.RegisterUser example_bcrypt req sample_world).2
    = (Ok (pb.mkUser "0" "Bob" "bob@x.com"), w2).
Proof.
  intros req.
  destruct (@register_then_verify example_bcrypt req sample_world
              (pb.mkRegisterUserResponse (pb.mkUser "0" "Bob" "bob@x.com"))
              (@LibraryService.RegisterUser example_bcrypt req sample_world).2)
    as (w2 & Hv & _).
  - vm_compute. reflexivity.
  - vm_compute. reflexivity.
  - by exists w2.
Defined.

Lemma verify_failure_indistinguishable_witness :
  (@UserRepository.VerifyCredentials example_bcrypt "ann@x.com" "wrongpass"
     (boot empty_db 100)).1
  = (@UserRepository.VerifyCredentials example_bcrypt "ann@x.com" "wrongpass" sample_world).1.
Proof.
  destruct (@verify_failure_indistinguishable example_bcrypt "ann@x.com" "wrongpass"
              (boot empty_db 100) sample_world) as (Ha & Hw & _).
  - done.
  - done.
  - intros id u Hu. simpl in Hu. by rewrite lookup_empty in Hu.
  - by exists "u1", ann.
  - intros id u Hu. simpl in Hu.
    apply lookup_insert_Some in Hu as [[_ <-]|[_ Hu]]; [done|].
    by rewrite lookup_empty in Hu.
  - by rewrite Ha, Hw.
Defined.

(** * Further properties of the repositories, the façade and the adapter *)

(** ** Operations that only read *)

Lemma statement_reads {A} s (run : World → res cause A * DB) w :
  (∀ w0, (run w0).2 = db w0) →
  let w' := (Pool.statement s run w).2 in
  db w' = db w ∧ clock w' = clock w ∧ stdout w' = stdout w ∧ entropy w' = entropy w.
Proof.
  intros Hrun.
  destruct (statement_effect s run w) as (_ & _ & Hc & Ho & He & [(msg & _ & _ & Hd)|(_ & _ & Hd)]);
    simpl; repeat split; try done.
  rewrite Hd, Hrun. done.
Qed.

Lemma select_user_by_email_reads email w :
  same_state w (Pool.select_user_by_email email w).2.
Proof.
  apply statement_reads. intros w0. simpl. by destruct (select_where _ _) as [|[? ?] ?].
Qed.

Lemma select_user_by_id_reads id w : same_state w (Pool.select_user_by_id id w).2.
Proof. apply statement_reads. intros w0. simpl. by destruct (users (db w0) !! id). Qed.

Lemma select_book_by_id_reads id w : same_state w (Pool.select_book_by_id id w).2.
Proof. apply statement_reads. intros w0. simpl. by destruct (books (db w0) !! id). Qed.

Lemma select_books_page_reads limit offset w :
  same_state w (Pool.select_books_page limit offset w).2.
Proof.
  apply statement_reads. intros w0. simpl. destruct (limit <? 0); [done|].
  by destruct (offset <? 0).
Qed.

Lemma select_available_reads id w : same_state w (Pool.select_available id w).2.
Proof. apply statement_reads. intros w0. simpl. by destruct (books (db w0) !! id). Qed.

Lemma select_borrow_book_reads id w : same_state w (Pool.select_borrow_book id w).2.
Proof. apply statement_reads. intros w0. simpl. by destruct (borrows (db w0) !! id). Qed.

Lemma same_state_refl w : same_state w w.
Proof. done. Qed.

Lemma VerifyCredentials_reads `{Bcrypt} email password w :
  same_state w (UserRepository.VerifyCredentials email password w).2.
Proof.
  unfold UserRepository.VerifyCredentials.
  pose proof (select_user_by_email_reads email w) as Hs.
  destruct (Pool.select_user_by_email email w) as [[[user hash]|err] w1]; simpl in *.
  - by destruct (CompareHashAndPassword hash password).
  - by destruct (is_ErrNoRows err).
Qed.

Lemma User_GetByID_reads id w : same_state w (UserRepository.GetByID id w).2.
Proof.
  unfold UserRepository.GetByID.
  pose proof (select_user_by_id_reads id w) as Hs.
  destruct (Pool.select_user_by_id id w) as [[user|err] w1]; simpl in *; [done|].
  by destruct (is_ErrNoRows err).
Qed.

Lemma Book_GetByID_reads id w : same_state w (BookRepository.GetByID id w).2.
Proof.
  unfold BookRepository.GetByID.
  pose proof (select_book_by_id_reads id w) as Hs.
  destruct (Pool.select_book_by_id id w) as [[book|err] w1]; simpl in *; [done|].
  by destruct (is_ErrNoRows err).
Qed.

Lemma List_reads limit offset w : same_state w (BookRepository.List limit offset w).2.
Proof.
  unfold BookRepository.List.
  pose proof (select_books_page_reads limit offset w) as Hs.
  by destruct (Pool.select_books_page limit offset w) as [[l|err] w1].
Qed.

(** X1.  Logging in, getting a book, listing books and checking
    availability leave the store, the clock, the output and the entropy as
    they were, whatever the request and whichever statements the environment
    fails. *)
Theorem queries_leave_the_store `{Bcrypt} op w :
  is_query op = true →
  db (run_op op w) = db w ∧ clock (run_op op w) = clock w ∧
  stdout (run_op op w) = stdout w ∧ entropy (run_op op w) = entropy w.
Proof.
  destruct op as [req|req|req|req|req|req|req|req]; try done; intros _; simpl.
  - unfold LibraryService.LoginUser. destruct (_ || _); [done|].
    pose proof (VerifyCredentials_reads (pb.login_Email req) (pb.login_Password req) w) as Hs.
    by destruct (UserRepository.VerifyCredentials _ _ w) as [[?|?] ?].
  - unfold LibraryService.GetBook. destruct (is_empty _); [done|].
    pose proof (Book_GetByID_reads (pb.get_Id req) w) as Hs.
    by destruct (BookRepository.GetByID _ w) as [[?|?] ?].
  - unfold LibraryService.ListBooks.
    match goal with |- context [BookRepository.List ?l ?o w] =>
      pose proof (List_reads l o w) as Hs;
      by destruct (BookRepository.List l o w) as [[?|?] ?] end.
  - unfold LibraryService.CheckBookAvailability. destruct (is_empty _); [done|].
    pose proof (Book_GetByID_reads (pb.check_BookId req) w) as Hs.
    by destruct (BookRepository.GetByID _ w) as [[?|?] ?].
Qed.

Lemma queries_leave_the_store_witness :
  db (@run_op example_bcrypt (OpGetBook (pb.mkGetBookRequest "b1"))
        (with_faults [Some "connection reset"] sample_world))
  = sample_db.
Proof.
  by destruct (@queries_leave_the_store example_bcrypt (OpGetBook (pb.mkGetBookRequest "b1"))
                 (with_faults [Some "connection reset"] sample_world) eq_refl) as [-> _].
Defined.

(** ** Required fields *)

(** X2.  Every façade operation answers a request that lacks a required
    field (an empty string, or no book at all) with InvalidArgument, and the
    world is exactly as before: the store was not called. *)
Theorem missing_fields_rejected `{Bcrypt} op w :
  missing_required op = true →
  (∃ msg, failure_of op w = Some (mkStatus InvalidArgument msg)) ∧ run_op op w = w.
Proof.
  destruct op as [req|req|req|req|req|req|req|req]; simpl; intros Hm.
  - unfold LibraryService.RegisterUser. rewrite Hm. simpl. eauto.
  - unfold LibraryService.LoginUser. rewrite Hm. simpl. eauto.
  - unfold LibraryService.CreateBook. destruct (pb.create_Book req) as [book|].
    + rewrite Hm. simpl. eauto.
    + simpl. eauto.
  - unfold LibraryService.GetBook. rewrite Hm. simpl. eauto.
  - done.
  - unfold LibraryService.BorrowBook. rewrite Hm. simpl. eauto.
  - unfold LibraryService.ReturnBook. rewrite Hm. simpl. eauto.
  - unfold LibraryService.CheckBookAvailability. rewrite Hm. simpl. eauto.
Qed.

Lemma missing_fields_rejected_witness :
  @run_op example_bcrypt (OpBorrowBook (pb.mkBorrowBookRequest "" "b1")) sample_world
  = sample_world.
Proof.
  by destruct (@missing_fields_rejected example_bcrypt
                 (OpBorrowBook (pb.mkBorrowBookRequest "" "b1")) sample_world eq_refl).
Defined.

(** ** Generated identifiers *)





(** ** The catalog *)

(** X3.  Checking the availability of a book, the lookup not being failed:
    for a book of the catalog the façade answers its flag and the literal
    "Available" when the flag is true, "Borrowed" when it is false, and the
    adapter answers 200 with both; for an identifier that names no book the
    façade answers NotFound and the adapter 404. *)
Theorem availability_of_a_book bookID w :
  next_fault w = None →
  bookID ≠ "" →
  let req := pb.mkCheckBookAvailabilityRequest bookID in
  match books (db w) !! bookID with
  | Some b =>
      let text := if b_available b then "Available" else "Borrowed" in
      (LibraryService.CheckBookAvailability req w).1
      = Ok (pb.mkCheckBookAvailabilityResponse (b_available b) text) ∧
      (RESTServer.checkBookAvailability bookID w).1
      = mkResponse 200 (JObject [("available", JBool (b_available b));
                                 ("status", JString text)])
  | None =>
      (LibraryService.CheckBookAvailability req w).1
      = Err (mkStatus NotFound "book not found: book not found") ∧
      (RESTServer.checkBookAvailability bookID w).1
      = mkResponse 404 (error_body "Book not found")
  end.
Proof.
  intros Hn Hid req.
  unfold RESTServer.checkBookAvailability, LibraryService.CheckBookAvailability.
  simpl pb.check_BookId. rewrite is_empty_false by done.
  unfold BookRepository.GetByID.
  destruct (books (db w) !! bookID) as [b|] eqn:Hb.
  - rewrite (select_book_by_id_found _ b) by done. simpl. done.
  - rewrite select_book_by_id_missing by done. simpl. done.
Qed.

Lemma availability_of_a_book_witness :
  (LibraryService.CheckBookAvailability (pb.mkCheckBookAvailabilityRequest "b2") sample_world).1
  = Ok (pb.mkCheckBookAvailabilityResponse false "Borrowed") ∧
  (RESTServer.checkBookAvailability "b9" sample_world).1
  = mkResponse 404 (error_body "Book not found").
Proof.
  split.
  - by destruct (availability_of_a_book "b2" sample_world eq_refl) as [-> _].
  - by destruct (availability_of_a_book "b9" sample_world eq_refl) as [_ ->].
Defined.




(** X5.  The ISBN column is unique and the repository always writes the
    request's ISBN, the empty string included: creating a book whose ISBN
    equals that of a book of the catalog fails with Internal, whichever
    statements the environment fails, and leaves the store as it was. *)
Theorem duplicate_isbn_rejected book w id0 b0 :
  books (db w) !! id0 = Some b0 →
  b_isbn b0 = pb.Isbn book →
  pb.Title book ≠ "" → pb.Author book ≠ "" →
  ∃ msg w',
    LibraryService.CreateBook (pb.mkCreateBookRequest (Some book)) w
    = (Err (mkStatus Internal msg), w') ∧ db w' = db w.
Proof.
  intros Hb Hisbn Ht Ha. unfold LibraryService.CreateBook. simpl.
  rewrite !is_empty_false by done. simpl.
  unfold BookRepository.Create, Pool.insert_book.
  match goal with |- context [Pool.statement ?s ?run ?w0] =>
    pose proof (statement_effect s run w0) as He;
    destruct (Pool.statement s run w0) as [r w'] end.
  simpl in He.
  assert (Hex : exists_where (λ b, String.eqb (b_isbn b) (pb.Isbn book)) (books (db w)) = true).
  { destruct (exists_where _ _) eqn:Hex; [done|].
    pose proof (exists_where_false _ _ Hex id0 b0 Hb) as Hne. simpl in Hne.
    apply String.eqb_neq in Hne. done. }
  rewrite Hex in He.
  destruct He as (_ & _ & _ & _ & _ & [(msg & _ & -> & Hd)|(_ & -> & Hd)]).
  - eauto.
  - destruct (negb _) in Hd |- *; simpl in *; eauto.
Qed.

Lemma duplicate_isbn_rejected_witness :
  ∃ msg w',
    LibraryService.CreateBook
      (pb.mkCreateBookRequest (Some (pb.mkBook "" "Foo again" "Bar" "111" true))) sample_world
    = (Err (mkStatus Internal msg), w') ∧ db w' = db sample_world.
Proof.
  apply (duplicate_isbn_rejected (pb.mkBook "" "Foo again" "Bar" "111" true) sample_world "b1" foo);
    done.
Defined.

(** ** Users *)





(** X7.  The email column is unique: registering an email that some user
    row already holds fails, with InvalidArgument when the request does not
    pass validation and with Internal otherwise, whichever statements the
    environment fails, and leaves the store as it was. *)
Theorem duplicate_email_rejected `{Bcrypt} req w id0 u0 :
  users (db w) !! id0 = Some u0 →
  u_email u0 = pb.reg_Email req →
  ∃ st w',
    LibraryService.RegisterUser req w = (Err st, w') ∧
    (st_code st = InvalidArgument ∨ st_code st = Internal) ∧
    db w' = db w.
Proof.
  intros Hu Hemail. unfold LibraryService.RegisterUser.
  destruct (_ || _); [eauto 10|]. destruct (negb _); [eauto 10|].
  destruct (_ <? _)%nat; [eauto 10|].
  unfold UserRepository.Create.
  destruct (GenerateFromPassword _ _ _) as [hash|msg]; [|eauto 10].
  unfold Pool.insert_user.
  match goal with |- context [Pool.statement ?s ?run ?w0] =>
    pose proof (statement_effect s run w0) as He;
    destruct (Pool.statement s run w0) as [r w'] end.
  simpl in He.
  assert (Hex : exists_where (λ u, String.eqb (u_email u) (pb.reg_Email req)) (users (db w)) = true).
  { destruct (exists_where _ _) eqn:Hex; [done|].
    pose proof (exists_where_false _ _ Hex id0 u0 Hu) as Hne. simpl in Hne.
    apply String.eqb_neq in Hne. done. }
  rewrite Hex in He.
  destruct He as (_ & _ & _ & _ & _ & [(msg & _ & -> & Hd)|(_ & -> & Hd)]).
  - eauto 10.
  - destruct (negb _) in Hd |- *; simpl in *; eauto 10.
Qed.

Lemma duplicate_email_rejected_witness :
  ∃ st w',
    @LibraryService.RegisterUser example_bcrypt
      (pb.mkRegisterUserRequest "Ann II" "ann@x.com" "password789") sample_world
    = (Err st, w') ∧
    (st_code st = InvalidArgument ∨ st_code st = Internal) ∧ db w' = db sample_world.
Proof.
  apply (@duplicate_email_rejected example_bcrypt
           (pb.mkRegisterUserRequest "Ann II" "ann@x.com" "password789") sample_world "u1" ann);
    done.
Defined.

(** ** More on borrowing and returning *)

(** What a successful [BorrowBook] has done, whatever the environment. *)
Lemma BorrowBook_succeeded userID bookID dueDate w borrowID w1 :
  BookRepository.BorrowBook userID bookID dueDate w = (Ok borrowID, w1) →
  ∃ b,
    books (db w) !! bookID = Some b ∧ b_available b = true ∧
    is_Some (users (db w) !! userID) ∧
    borrowID = gen_random_uuid (borrows (db w)) ∧
    db w1 = borrow_inserted borrowID userID bookID (clock w) dueDate
              (books_updated bookID false (db w)) ∧
    faults w1 = tail (tail (tail (faults w))) ∧ clock w1 = clock w.
Proof.
  unfold BookRepository.BorrowBook, Pool.select_available, Pool.update_available,
    Pool.insert_borrow.
  match goal with |- context [Pool.statement ?s ?run w] =>
    pose proof (statement_effect s run w) as He1;
    destruct (Pool.statement s run w) as [r1 wa] end.
  simpl in He1.
  destruct He1 as (_ & Hf1 & Hc1 & _ & _ & [(msg & _ & -> & _)|(_ & -> & Hd1)]); [done|].
  destruct (books (db w) !! bookID) as [b|] eqn:Hb; [|done]. simpl in Hd1 |- *.
  destruct (b_available b) eqn:Ha; [|done]. simpl.
  match goal with |- context [Pool.statement ?s ?run wa] =>
    pose proof (statement_effect s run wa) as He2;
    destruct (Pool.statement s run wa) as [r2 wb] end.
  simpl in He2.
  destruct He2 as (_ & Hf2 & Hc2 & _ & _ & [(msg & _ & -> & _)|(_ & -> & Hd2)]); [done|].
  simpl.
  match goal with |- context [Pool.statement ?s ?run wb] =>
    pose proof (statement_effect s run wb) as He3;
    destruct (Pool.statement s run wb) as [r3 wc] end.
  simpl in He3.
  destruct He3 as (_ & Hf3 & Hc3 & _ & _ & [(msg & _ & -> & _)|(_ & -> & Hd3)]).
  { by destruct (Pool.statement _ _ wc) as [[?|?] ?]. }
  rewrite Hd2, Hd1 in Hd3 |- *. simpl in Hd3 |- *.
  rewrite lookup_alter_eq, Hb in Hd3 |- *. simpl in Hd3 |- *.
  rewrite andb_true_r in Hd3 |- *.
  destruct (bool_decide (is_Some (users (db w) !! userID))) eqn:Hu; simpl in *.
  - intros [= <- <-]. exists b. apply bool_decide_eq_true in Hu.
    repeat split; try done.
    + rewrite Hd3. unfold borrow_inserted, books_updated. simpl. by rewrite Hc2, Hc1.
    + by rewrite Hf3, Hf2, Hf1.
    + by rewrite Hc3, Hc2, Hc1.
  - by destruct (Pool.statement _ _ wc) as [[?|?] ?].
Qed.

(** X8.  No sequential double borrow: after a borrow of a book has
    succeeded, a following request to borrow the same book, by anyone and
    with any due date (its availability read not being failed), fails with
    "book is not available" and leaves the store as the first borrow left
    it. *)
Theorem second_borrow_rejected userID bookID dueDate w borrowID w1 userID' dueDate' :
  BookRepository.BorrowBook userID bookID dueDate w = (Ok borrowID, w1) →
  next_fault w1 = None →
  ∃ w2,
    BookRepository.BorrowBook userID' bookID dueDate' w1
    = (Err (Errorf "book is not available" None), w2) ∧
    db w2 = db w1.
Proof.
  intros Hrun Hn.
  destruct (BorrowBook_succeeded _ _ _ _ _ _ Hrun) as (b & Hb & _ & _ & _ & Hdb & _).
  exists (after (SelectAvailable bookID) (db w1) w1). split; [|done].
  unfold BookRepository.BorrowBook.
  rewrite (select_available_found _ (set_available false b)); [done|done|].
  rewrite Hdb. simpl. by rewrite lookup_alter_eq, Hb.
Qed.

Lemma second_borrow_rejected_witness :
  ∃ w2,
    BookRepository.BorrowBook "u1" "b1" 5000
      (BookRepository.BorrowBook "u1" "b1" 1209700 sample_world).2
    = (Err (Errorf "book is not available" None), w2).
Proof.
  destruct (second_borrow_rejected "u1" "b1" 1209700 sample_world "0"
              (BookRepository.BorrowBook "u1" "b1" 1209700 sample_world).2 "u1" 5000)
    as (w2 & Hrun & _); [vm_compute; reflexivity..|].
  by exists w2.
Defined.

(** X9.  Borrow, then return: when a borrow succeeds and the borrow
    identifier it returned is then returned in a world where no statement is
    failed, the return succeeds, the table of books is exactly what it was
    before the borrow, the users are untouched, and the ledger holds one
    more record, closed, stamped with the time of the return. *)
Theorem borrow_then_return userID bookID dueDate w borrowID w1 t :
  BookRepository.BorrowBook userID bookID dueDate w = (Ok borrowID, w1) →
  calm w1 →
  ∃ w2,
    BookRepository.ReturnBook borrowID (with_clock t w1) = (Ok tt, w2) ∧
    books (db w2) = books (db w) ∧
    users (db w2) = users (db w) ∧
    borrows (db w) !! borrowID = None ∧
    borrows (db w2)
    = <[borrowID := mkBorrowRow userID bookID (clock w) dueDate (Some t)]> (borrows (db w)).
Proof.
  intros Hrun Hc.
  destruct (BorrowBook_succeeded _ _ _ _ _ _ Hrun) as (b & Hb & Ha & _ & Hid & Hdb & _).
  assert (Hr : borrows (db (with_clock t w1)) !! borrowID
               = Some (mkBorrowRow userID bookID (clock w) dueDate None)).
  { simpl. rewrite Hdb. simpl. apply lookup_insert_eq. }
  exists (returned borrowID bookID (with_clock t w1)).
  split; [by rewrite (ReturnBook_runs borrowID (with_clock t w1) _ Hc Hr)|].
  simpl. rewrite Hdb. simpl. repeat split.
  - by apply (alter_available_back _ _ b).
  - rewrite Hid. apply gen_random_uuid_fresh.
  - by rewrite alter_insert_eq.
Qed.

Lemma borrow_then_return_witness :
  ∃ w2,
    BookRepository.ReturnBook "0"
      (with_clock 700 (BookRepository.BorrowBook "u1" "b1" 1209700 sample_world).2)
    = (Ok tt, w2) ∧
    books (db w2) = books sample_db.
Proof.
  destruct (borrow_then_return "u1" "b1" 1209700 sample_world "0"
              (BookRepository.BorrowBook "u1" "b1" 1209700 sample_world).2 700)
    as (w2 & Hrun & Hb & _); [vm_compute; reflexivity|repeat constructor|].
  by exists w2.
Defined.

Ltac next_runs Hf :=
  unfold next_fault; simpl; rewrite ?Hf; reflexivity.

(** X10.  The gap of the non-transactional borrow: when the environment
    lets the availability read and the update of the flag run and then fails
    both the insert of the borrow record and the compensating update, the
    request fails with the insert's error, the book is left unavailable and
    no borrow record was added.  If no open borrow referenced the book
    before, the ledger invariant is broken afterwards. *)
Theorem borrow_left_half_done userID bookID dueDate w b insertErr revertErr rest :
  books (db w) !! bookID = Some b →
  b_available b = true →
  faults w = None :: None :: Some insertErr :: Some revertErr :: rest →
  ∃ w',
    BookRepository.BorrowBook userID bookID dueDate w
    = (Err (Errorf "failed to create borrow record" (Some (PgError insertErr))), w') ∧
    books (db w') !! bookID = Some (set_available false b) ∧
    borrows (db w') = borrows (db w) ∧
    stdout w' = stdout w ++ ["Failed to revert book availability: " +:+ revertErr +:+ newline] ∧
    (¬ open_borrow_of (db w) bookID → ¬ ledger_invariant (db w')).
Proof.
  intros Hb Ha Hf.
  unfold BookRepository.BorrowBook.
  rewrite (select_available_found _ b); [|next_runs Hf|done].
  rewrite Ha. simpl negb. cbv iota.
  rewrite update_available_runs by next_runs Hf.
  unfold Pool.insert_borrow.
  erewrite statement_fails; [|simpl; rewrite Hf; reflexivity].
  unfold Pool.update_available.
  erewrite statement_fails; [|simpl; reflexivity].
  eexists. split; [reflexivity|]. simpl.
  rewrite lookup_alter_eq, Hb. repeat split; try done.
  intros Hnone Hinv.
  destruct (Hinv bookID (set_available false b)) as [Hopen _].
  { simpl. by rewrite lookup_alter_eq, Hb. }
  apply Hnone. destruct (Hopen eq_refl) as (id & r & Hr & Hk & Hop).
  by exists id, r.
Qed.

Lemma borrow_left_half_done_witness :
  ∃ w',
    BookRepository.BorrowBook "u1" "b1" 1209700
      (with_faults [None; None; Some "deadlock"; Some "connection reset"] sample_world)
    = (Err (Errorf "failed to create borrow record" (Some (PgError "deadlock"))), w') ∧
    books (db w') !! "b1" = Some (set_available false foo) ∧
    borrows (db w') = borrows sample_db.
Proof.
  destruct (borrow_left_half_done "u1" "b1" 1209700
              (with_faults [None; None; Some "deadlock"; Some "connection reset"] sample_world)
              foo "deadlock" "connection reset" [])
    as (w' & Hrun & Hb & Hr & _); [done..|].
  by exists w'.
Defined.



(** X12.  Returning a borrow that is already closed while the book has
    been borrowed again: with no statement failed [ReturnBook] succeeds and
    marks the book available although the later borrow is still open, so the
    ledger invariant does not hold afterwards. *)
Theorem stale_return_frees_borrowed_book staleID openID w stale current b :
  calm w →
  borrows (db w) !! staleID = Some stale →
  borrows (db w) !! openID = Some current →
  staleID ≠ openID →
  br_book_id stale = br_book_id current →
  is_open current →
  books (db w) !! br_book_id stale = Some b →
  ∃ w',
    BookRepository.ReturnBook staleID w = (Ok tt, w') ∧
    books (db w') !! br_book_id current = Some (set_available true b) ∧
    borrows (db w') !! openID = Some current ∧
    ¬ ledger_invariant (db w').
Proof.
  intros Hc Hs Ho Hne Hsame Hopen Hb.
  exists (returned staleID (br_book_id stale) w).
  assert (Hb' : books (db (returned staleID (br_book_id stale) w)) !! br_book_id current
                = Some (set_available true b)).
  { simpl. by rewrite <- Hsame, lookup_alter_eq, Hb. }
  assert (Ho' : borrows (db (returned staleID (br_book_id stale) w)) !! openID = Some current).
  { simpl. by rewrite lookup_alter_ne. }
  split; [by apply ReturnBook_runs|]. split; [done|]. split; [done|].
  intros Hinv. destruct (Hinv _ _ Hb') as [_ Hclosed].
  assert (b_available (set_available true b) = false) as Habs; [|done].
  apply Hclosed. by exists openID, current.
Qed.

Lemma stale_return_frees_borrowed_book_witness :
  let w := with_db (mkDB (users sample_db) (books sample_db)
                         (<["r0" := mkBorrowRow "u1" "b2" 10 1209610 (Some 40)]>
                            (borrows sample_db)))
                   sample_world in
  ∃ w', BookRepository.ReturnBook "r0" w = (Ok tt, w') ∧ ¬ ledger_invariant (db w').
Proof.
  intros w.
  destruct (stale_return_frees_borrowed_book "r0" "r1" w
              (mkBorrowRow "u1" "b2" 10 1209610 (Some 40)) loan baz)
    as (w' & Hrun & _ & _ & Hinv); [repeat constructor|done..|].
  by exists w'.
Defined.

(** ** Listing *)

#[global] Instance title_le_total : Total Pool.title_le.
Proof. intros x y. unfold Pool.title_le. apply String.leb_total. Qed.




(** ** The page size of the HTTP listing *)

Lemma int32_range n : - 2147483648 <= int32 n < 2147483648.
Proof.
  unfold int32.
  pose proof (Z.mod_pos_bound (n + 2147483648) 4294967296 eq_refl). lia.
Qed.

Lemma int32_small n : - 2147483648 <= n < 2147483648 → int32 n = n.
Proof. intros Hn. unfold int32. rewrite Z.mod_small by lia. lia. Qed.

Lemma int32_int32 n : int32 (int32 n) = int32 n.
Proof. apply int32_small, int32_range. Qed.

(** X14.  Whatever the [page_size] query parameter (absent, not a number,
    negative, zero, beyond 32 bits), the listing handler sends exactly one
    query, with offset 0 and a limit between 1 and 2^31-1: the parameter
    read as a 32-bit integer when that is positive, and 10 otherwise.  The
    store is never asked for a negative limit. *)
Theorem rest_list_limit_positive pageSizeParam w :
  let limit := if 0 <? page_size_read pageSizeParam then page_size_read pageSizeParam else 10 in
  stmts (RESTServer.listBooks pageSizeParam w).2 = stmts w ++ [SelectBooksPage limit 0] ∧
  0 < limit < 2147483648 ∧
  db (RESTServer.listBooks pageSizeParam w).2 = db w.
Proof.
  intros limit.
  assert (Hr : - 2147483648 <= page_size_read pageSizeParam < 2147483648).
  { unfold page_size_read. destruct (is_empty pageSizeParam); [lia|].
    unfold RESTServer.parseInt32. destruct (Unmarshal_int pageSizeParam); [|lia].
    apply int32_range. }
  assert (Hl : 0 < limit < 2147483648).
  { subst limit. destruct (0 <? page_size_read pageSizeParam) eqn:Hp; [|lia].
    apply Z.ltb_lt in Hp. lia. }
  unfold RESTServer.listBooks. fold (page_size_read pageSizeParam).
  rewrite (int32_small _ Hr).
  unfold LibraryService.ListBooks. simpl pb.PageSize. fold limit.
  unfold BookRepository.List.
  pose proof (select_books_page_reads limit 0 w) as (Hdb & _).
  unfold Pool.select_books_page in *.
  match goal with |- context [Pool.statement ?s ?run w] =>
    pose proof (statement_effect s run w) as (Hs & _);
    destruct (Pool.statement s run w) as [[page|err] w1] end; simpl in *; done.
Qed.

(** ** The email format *)

Lemma append_empty_inv s1 s2 : s1 +:+ s2 = "" → s1 = "" ∧ s2 = "".
Proof. destruct s1; simpl; [done|]. discriminate. Qed.

Lemma nullable_matches r : nullable r = true ↔ matches r "".
Proof.
  split.
  - induction r as [| |p|r1 IH1 r2 IH2|r1 IH1 r2 IH2|r IH]; simpl; intros Hn; try done.
    + constructor.
    + apply andb_true_iff in Hn as [H1 H2].
      change "" with ("" +:+ ""). constructor; auto.
    + apply orb_true_iff in Hn as [H1|H2]; [apply m_alt_l|apply m_alt_r]; auto.
    + constructor.
  - intros Hm. remember "" as s eqn:Hs.
    induction Hm as [|p c Hp|r1 r2 s1 s2 H1 IH1 H2 IH2|r1 r2 s H IH|r1 r2 s H IH
                    |r|r s1 s2 H1 IH1 H2 IH2]; simpl; try done.
    + apply append_empty_inv in Hs as [-> ->]. by rewrite IH1, IH2.
    + by rewrite IH.
    + rewrite IH by done. apply orb_true_r.
Qed.

(** A non-empty word of [Star r] starts with a non-empty word of [r]. *)
Lemma matches_star_cons r c s :
  matches (Star r) (String c s) →
  ∃ s1 s2, s = s1 +:+ s2 ∧ matches r (String c s1) ∧ matches (Star r) s2.
Proof.
  intros Hm. remember (Star r) as r' eqn:Hr. remember (String c s) as s' eqn:Hs.
  revert c s Hs.
  induction Hm as [|p c' Hp|r1 r2 s1 s2 H1 IH1 H2 IH2|r1 r2 s0 H IH|r1 r2 s0 H IH
                  |r0|r0 s1 s2 H1 IH1 H2 IH2]; intros c s Hs; try done.
  injection Hr as ->. destruct s1 as [|c1 s1]; simpl in Hs.
  - by apply IH2.
  - injection Hs as -> <-. by exists s1, s2.
Qed.

Lemma matches_seq_inv r1 r2 s :
  matches (Seq r1 r2) s → ∃ s1 s2, s = s1 +:+ s2 ∧ matches r1 s1 ∧ matches r2 s2.
Proof. inversion 1; subst; eauto. Qed.

Lemma deriv_matches r c s : matches (deriv c r) s ↔ matches r (String c s).
Proof.
  revert s. induction r as [| |p|r1 IH1 r2 IH2|r1 IH1 r2 IH2|r IH]; intros s; simpl.
  - split; inversion 1.
  - split; inversion 1.
  - destruct (p c) eqn:Hp; split; intros Hm.
    + inversion Hm; subst. by constructor.
    + inversion Hm; subst. constructor.
    + inversion Hm.
    + inversion Hm; subst. congruence.
  - assert (Hseq : matches (Seq (deriv c r1) r2) s →
                   matches (Seq r1 r2) (String c s)).
    { intros Hm. inversion Hm as [| |? ? s1 s2 H1 H2| | | |]; subst.
      apply IH1 in H1. change (String c (s1 +:+ s2)) with (String c s1 +:+ s2).
      by constructor. }
    assert (Hback : matches (Seq r1 r2) (String c s) →
                    matches (Seq (deriv c r1) r2) s ∨
                    (matches r1 "" ∧ matches r2 (String c s))).
    { intros Hm. apply matches_seq_inv in Hm as (s1 & s2 & Hs & H1 & H2).
      destruct s1 as [|c1 s1].
      - change ("" +:+ s2) with s2 in Hs. right. by subst.
      - change (String c1 s1 +:+ s2) with (String c1 (s1 +:+ s2)) in Hs.
        injection Hs as -> ->. left. constructor; [by apply IH1|done]. }
    destruct (nullable r1) eqn:Hn; split; intros Hm.
    + inversion Hm; subst; [by apply Hseq|].
      change (String c s) with ("" +:+ String c s). constructor.
      * by apply nullable_matches.
      * by apply IH2.
    + destruct (Hback Hm) as [H|[_ H]]; [by apply m_alt_l|].
      apply m_alt_r. by apply IH2.
    + by apply Hseq.
    + destruct (Hback Hm) as [H|[H _]]; [done|].
      apply nullable_matches in H. congruence.
  - split; intros Hm; inversion Hm; subst.
    + apply m_alt_l. by apply IH1.
    + apply m_alt_r. by apply IH2.
    + apply m_alt_l. by apply IH1.
    + apply m_alt_r. by apply IH2.
  - split; intros Hm.
    + inversion Hm as [| |? ? s1 s2 H1 H2| | | |]; subst.
      apply IH in H1. change (String c (s1 +:+ s2)) with (String c s1 +:+ s2).
      by constructor.
    + apply matches_star_cons in Hm as (s1 & s2 & -> & H1 & H2).
      constructor; [by apply IH|done].
Qed.

(** The matcher decides the language. *)
Lemma MatchString_matches r s : MatchString r s = true ↔ matches r s.
Proof.
  revert r. induction s as [|c s IH]; intros r; simpl.
  - apply nullable_matches.
  - rewrite IH. apply deriv_matches.
Qed.

Lemma matches_class_inv p s : matches (Class p) s → ∃ c, s = String c "" ∧ p c = true.
Proof. inversion 1; subst; eauto. Qed.

Lemma matches_star_class p s : matches (Star (Class p)) s ↔ all_chars p s = true.
Proof.
  split.
  - intros Hm. remember (Star (Class p)) as r eqn:Hr.
    induction Hm as [|p' c Hp|r1 r2 s1 s2 H1 IH1 H2 IH2|r1 r2 s0 H IH|r1 r2 s0 H IH
                    |r0|r0 s1 s2 H1 IH1 H2 IH2]; try done.
    injection Hr as ->. apply matches_class_inv in H1 as (c & -> & Hc).
    change (String c "" +:+ s2) with (String c s2). simpl. rewrite Hc. by apply IH2.
  - induction s as [|c s IH]; simpl; intros Ha; [constructor|].
    apply andb_true_iff in Ha as [Hc Hs].
    change (String c s) with (String c "" +:+ s).
    constructor; [by constructor|by apply IH].
Qed.

Lemma matches_plus_class p s :
  matches (Plus (Class p)) s ↔ s ≠ "" ∧ all_chars p s = true.
Proof.
  unfold Plus. split.
  - intros (s1 & s2 & -> & H1 & H2)%matches_seq_inv.
    apply matches_class_inv in H1 as (c & -> & Hc).
    apply matches_star_class in H2.
    change (String c "" +:+ s2) with (String c s2). simpl. by rewrite Hc.
  - destruct s as [|c s]; intros [Hne Ha]; [done|]. simpl in Ha.
    apply andb_true_iff in Ha as [Hc Hs].
    change (String c s) with (String c "" +:+ s).
    constructor; [by constructor|by apply matches_star_class].
Qed.

Lemma matches_atleast2_class p s :
  matches (AtLeast2 (Class p)) s ↔ (2 <= String.length s)%nat ∧ all_chars p s = true.
Proof.
  unfold AtLeast2. split.
  - intros (s1 & s2 & -> & H1 & (s3 & s4 & -> & H3 & H4)%matches_seq_inv)%matches_seq_inv.
    apply matches_class_inv in H1 as (c1 & -> & Hc1).
    apply matches_class_inv in H3 as (c3 & -> & Hc3).
    apply matches_star_class in H4.
    change (String c1 "" +:+ String c3 "" +:+ s4) with (String c1 (String c3 s4)).
    simpl. rewrite Hc1, Hc3. split; [lia|done].
  - destruct s as [|c1 [|c2 s]]; simpl; intros [Hlen Ha]; try lia.
    apply andb_true_iff in Ha as [Hc1 [Hc2 Hs]%andb_true_iff].
    change (String c1 (String c2 s)) with (String c1 "" +:+ String c2 "" +:+ s).
    repeat constructor; try done. by apply matches_star_class.
Qed.

Lemma one_of_single c0 c : one_of (String c0 "") c = true ↔ c = c0.
Proof.
  unfold one_of. rewrite bool_decide_eq_true. simpl. rewrite list_elem_of_singleton. done.
Qed.

(** X15.  The email format accepts exactly the strings of the shape
    local@domain.tld, where the local part is a non-empty run of letters,
    digits and the characters . _ % + -, the domain a non-empty run of
    letters, digits, . and -, and the last part at least two letters. *)
Theorem email_format_shape s :
  MatchString emailRegex s = true ↔
  ∃ local domain tld,
    s = local +:+ "@" +:+ domain +:+ "." +:+ tld ∧
    local ≠ "" ∧ all_chars local_char local = true ∧
    domain ≠ "" ∧ all_chars domain_char domain = true ∧
    (2 <= String.length tld)%nat ∧ all_chars alpha tld = true.
Proof.
  rewrite MatchString_matches. unfold emailRegex. fold local_char domain_char. split.
  - intros (l & s1 & -> & Hl & (a & s2 & -> & Ha & (d & s3 & -> & Hd
            & (dot & t & -> & Hdot & Ht)%matches_seq_inv)%matches_seq_inv)%matches_seq_inv)
           %matches_seq_inv.
    apply matches_plus_class in Hl as [Hl1 Hl2].
    apply matches_plus_class in Hd as [Hd1 Hd2].
    apply matches_atleast2_class in Ht as [Ht1 Ht2].
    apply matches_class_inv in Ha as (c & -> & ->%one_of_single).
    apply matches_class_inv in Hdot as (c & -> & ->%one_of_single).
    by exists l, d, t.
  - intros (l & d & t & -> & Hl1 & Hl2 & Hd1 & Hd2 & Ht1 & Ht2).
    constructor; [by apply matches_plus_class|].
    constructor; [by constructor|].
    constructor; [by apply matches_plus_class|].
    constructor; [by constructor|].
    by apply matches_atleast2_class.
Qed.

(** ** How the store can change *)

Lemma statement_step {A} s (run : World → res cause A * DB) w :
  (∀ w0, db_step (db w0) (run w0).2) →
  db_step (db w) (db (Pool.statement s run w).2).
Proof.
  intros Hrun.
  destruct (statement_effect s run w) as (_ & _ & _ & _ & _ & [(msg & _ & _ & Hd)|(_ & _ & Hd)]);
    simpl in *; rewrite Hd; [constructor|]. apply (Hrun (sent s w)).
Qed.

Lemma read_step w w' : same_state w w' → db_step (db w) (db w').
Proof. intros (-> & _). constructor. Qed.

Lemma insert_user_step name email hash w :
  db_step (db w) (db (Pool.insert_user name email hash w).2).
Proof.
  apply statement_step. intros w0. simpl.
  destruct (negb _); [constructor|].
  destruct (exists_where _ _) eqn:Hex; [constructor|]. simpl.
  apply (step_user _ _ (mkUserRow name email hash)); [apply gen_random_uuid_fresh|].
  intros id' u' Hu'. pose proof (exists_where_false _ _ Hex id' u' Hu') as Hne.
  simpl in *. by apply String.eqb_neq.
Qed.

Lemma insert_book_step title author isbn available w :
  db_step (db w) (db (Pool.insert_book title author isbn available w).2).
Proof.
  apply statement_step. intros w0. simpl.
  destruct (negb _); [constructor|].
  destruct (exists_where _ _) eqn:Hex; [constructor|]. simpl.
  apply (step_book _ _ (mkBookRow title author isbn available)); [apply gen_random_uuid_fresh|].
  intros id' b' Hb'. pose proof (exists_where_false _ _ Hex id' b' Hb') as Hne.
  simpl in *. by apply String.eqb_neq.
Qed.

Lemma update_available_step id a w :
  db_step (db w) (db (Pool.update_available id a w).2).
Proof. apply statement_step. intros w0. simpl. apply step_flag. Qed.

Lemma insert_borrow_step user_id book_id due w :
  db_step (db w) (db (Pool.insert_borrow user_id book_id due w).2).
Proof.
  apply statement_step. intros w0. simpl.
  destruct (bool_decide (is_Some (users (db w0) !! user_id))) eqn:Hu; simpl;
    [|constructor].
  destruct (bool_decide (is_Some (books (db w0) !! book_id))) eqn:Hb; simpl;
    [|constructor].
  apply bool_decide_eq_true in Hu, Hb.
  apply (step_borrow _ _ (mkBorrowRow user_id book_id (clock w0) due None)); try done.
  apply gen_random_uuid_fresh.
Qed.

Lemma update_return_date_step id w :
  db_step (db w) (db (Pool.update_return_date id w).2).
Proof. apply statement_step. intros w0. simpl. apply step_close. Qed.

Ltac chain :=
  simpl in *; repeat (eapply rtc_l; [eassumption|]); apply rtc_refl.

Lemma User_Create_steps `{Bcrypt} name email password w :
  rtc db_step (db w) (db (UserRepository.Create name email password w).2).
Proof.
  unfold UserRepository.Create.
  destruct (GenerateFromPassword _ _ _) as [hash|msg]; [|apply rtc_refl].
  pose proof (insert_user_step name email hash (next_entropy w)) as H1.
  destruct (Pool.insert_user _ _ _ _) as [[?|?] w1]; chain.
Qed.

Lemma Book_Create_steps book w :
  rtc db_step (db w) (db (BookRepository.Create book w).2).
Proof.
  unfold BookRepository.Create.
  pose proof (insert_book_step (pb.Title book) (pb.Author book) (pb.Isbn book)
                (pb.Available book) w) as H1.
  destruct (Pool.insert_book _ _ _ _ _) as [[?|?] w1]; chain.
Qed.

Lemma BorrowBook_steps userID bookID dueDate w :
  rtc db_step (db w) (db (BookRepository.BorrowBook userID bookID dueDate w).2).
Proof.
  unfold BookRepository.BorrowBook.
  pose proof (read_step _ _ (select_available_reads bookID w)) as H1.
  destruct (Pool.select_available bookID w) as [[[|]|?] w1]; [|chain..].
  simpl negb. cbv iota.
  pose proof (update_available_step bookID false w1) as H2.
  destruct (Pool.update_available bookID false w1) as [[?|?] w2]; [|chain].
  pose proof (insert_borrow_step userID bookID dueDate w2) as H3.
  destruct (Pool.insert_borrow userID bookID dueDate w2) as [[?|?] w3]; [chain|].
  pose proof (update_available_step bookID true w3) as H4.
  destruct (Pool.update_available bookID true w3) as [[?|?] w4]; chain.
Qed.

Lemma ReturnBook_steps borrowID w :
  rtc db_step (db w) (db (BookRepository.ReturnBook borrowID w).2).
Proof.
  unfold BookRepository.ReturnBook.
  pose proof (read_step _ _ (select_borrow_book_reads borrowID w)) as H1.
  destruct (Pool.select_borrow_book borrowID w) as [[bookID|?] w1]; [|chain].
  pose proof (update_available_step bookID true w1) as H2.
  destruct (Pool.update_available bookID true w1) as [[?|?] w2]; [|chain].
  pose proof (update_return_date_step borrowID w2) as H3.
  destruct (Pool.update_return_date borrowID w2) as [[?|?] w3]; [chain|].
  pose proof (update_available_step bookID false w3) as H4.
  destruct (Pool.update_available bookID false w3) as [[?|?] w4]; chain.
Qed.

(** Whatever the request and whatever the environment does, the store
    changes by a sequence of such steps. *)
Lemma run_op_steps `{Bcrypt} op w : rtc db_step (db w) (db (run_op op w)).
Proof.
  destruct op as [req|req|req|req|req|req|req|req].
  - simpl. unfold LibraryService.RegisterUser.
    destruct (_ || _); [apply rtc_refl|]. destruct (negb _); [apply rtc_refl|].
    destruct (_ <? _)%nat; [apply rtc_refl|].
    pose proof (User_Create_steps (pb.reg_Name req) (pb.reg_Email req) (pb.reg_Password req) w).
    by destruct (UserRepository.Create _ _ _ w) as [[?|?] ?].
  - simpl. unfold LibraryService.LoginUser. destruct (_ || _); [apply rtc_refl|].
    pose proof (VerifyCredentials_reads (pb.login_Email req) (pb.login_Password req) w)
      as [Hdb _].
    destruct (UserRepository.VerifyCredentials _ _ w) as [[?|?] ?]; simpl in *;
      rewrite Hdb; apply rtc_refl.
  - simpl. unfold LibraryService.CreateBook.
    destruct (pb.create_Book req) as [book|]; [|apply rtc_refl].
    destruct (_ || _); [apply rtc_refl|].
    pose proof (Book_Create_steps book w).
    by destruct (BookRepository.Create book w) as [[?|?] ?].
  - simpl. unfold LibraryService.GetBook. destruct (is_empty _); [apply rtc_refl|].
    pose proof (Book_GetByID_reads (pb.get_Id req) w) as [Hdb _].
    destruct (BookRepository.GetByID _ w) as [[?|?] ?]; simpl in *;
      rewrite Hdb; apply rtc_refl.
  - simpl. unfold LibraryService.ListBooks.
    match goal with |- context [BookRepository.List ?l ?o w] =>
      pose proof (List_reads l o w) as [Hdb _];
      destruct (BookRepository.List l o w) as [[?|?] ?] end; simpl in *;
      rewrite Hdb; apply rtc_refl.
  - simpl. unfold LibraryService.BorrowBook.
    destruct (_ || _); [apply rtc_refl|].
    match goal with |- context [BookRepository.BorrowBook ?u ?b ?d w] =>
      pose proof (BorrowBook_steps u b d w);
      by destruct (BookRepository.BorrowBook u b d w) as [[?|?] ?] end.
  - simpl. unfold LibraryService.ReturnBook.
    destruct (is_empty _); [apply rtc_refl|].
    pose proof (ReturnBook_steps (pb.return_BorrowId req) w).
    by destruct (BookRepository.ReturnBook _ w) as [[?|?] ?].
  - simpl. unfold LibraryService.CheckBookAvailability.
    destruct (is_empty _); [apply rtc_refl|].
    pose proof (Book_GetByID_reads (pb.check_BookId req) w) as [Hdb _].
    destruct (BookRepository.GetByID _ w) as [[?|?] ?]; simpl in *;
      rewrite Hdb; apply rtc_refl.
Qed.

Lemma reachable_steps `{Bcrypt} allowed w0 w :
  reachable allowed w0 w → rtc db_step (db w0) (db w).
Proof.
  induction 1 as [|w t Hreach IH Ht|w op Hreach IH Hop].
  - apply rtc_refl.
  - exact IH.
  - etrans; [exact IH|]. apply run_op_steps.
Qed.

Lemma keeps_refl d : keeps d d.
Proof. split; [done|]. split; intros id x Hx; exists x; done. Qed.

Lemma keeps_trans d1 d2 d3 : keeps d1 d2 → keeps d2 d3 → keeps d1 d3.
Proof.
  intros (Hu1 & Hb1 & Hr1) (Hu2 & Hb2 & Hr2). split; [by etrans|]. split.
  - intros id b Hb. destruct (Hb1 _ _ Hb) as (b' & Hb' & E1 & E2 & E3).
    destruct (Hb2 _ _ Hb') as (b'' & Hb'' & F1 & F2 & F3).
    exists b''. repeat split; congruence.
  - intros id r Hr. destruct (Hr1 _ _ Hr) as (r' & Hr' & E1 & E2 & E3 & E4 & E5).
    destruct (Hr2 _ _ Hr') as (r'' & Hr'' & F1 & F2 & F3 & F4 & F5).
    exists r''. repeat split; try congruence. auto.
Qed.

Lemma keeps_step d d' : db_step d d' → keeps d d'.
Proof.
  intros [|id u Hfresh _|id b Hfresh _|id a|id r Hfresh _ _ _|id t].
  - apply keeps_refl.
  - split; [by apply insert_subseteq|]. split; intros k x Hx; exists x; done.
  - split; [done|]. split; intros k x Hx; exists x; simpl; [|done].
    rewrite lookup_insert_ne; [done|]. intros <-. congruence.
  - split; [done|]. split; intros k x Hx; simpl; [|by exists x].
    destruct (decide (id = k)) as [<-|Hne].
    + exists (set_available a x). by rewrite lookup_alter_eq, Hx.
    + exists x. by rewrite lookup_alter_ne.
  - split; [done|]. split; intros k x Hx; exists x; simpl; [done|].
    rewrite lookup_insert_ne; [done|]. intros <-. congruence.
  - split; [done|]. split; intros k x Hx; simpl; [by exists x|].
    destruct (decide (id = k)) as [<-|Hne].
    + exists (set_return_date t x). by rewrite lookup_alter_eq, Hx.
    + exists x. by rewrite lookup_alter_ne.
Qed.

Lemma keeps_steps d d' : rtc db_step d d' → keeps d d'.
Proof.
  induction 1 as [|d1 d2 d3 Hstep _ IH]; [apply keeps_refl|].
  eapply keeps_trans; [by apply keeps_step|done].
Qed.

(** X16.  Serving requests never deletes or rewrites what identifies a
    row, whatever the requests and whichever statements the environment
    fails: in every world reached, each user row is as it was, each book is
    still there with its title, author and ISBN, and each borrow record is
    still there with its borrower, book, borrow date and due date, closed if
    it was closed. *)
Theorem store_keeps_its_rows `{Bcrypt} w0 w :
  reachable any_request w0 w → keeps (db w0) (db w).
Proof. intros Hreach. apply keeps_steps. by eapply reachable_steps. Qed.

Lemma store_keeps_its_rows_witness :
  keeps sample_db
    (db (@run_op example_bcrypt (OpReturnBook (pb.mkReturnBookRequest "r1"))
           (with_faults [None; Some "timeout"] sample_world))).
Proof.
  apply (@store_keeps_its_rows example_bcrypt
           (with_faults [None; Some "timeout"] sample_world)).
  apply (@reach_serve example_bcrypt); [apply (@reach_start example_bcrypt)|exact I].
Defined.








(** ** What the client is told *)

(** X19.  A database failure during login looks like a wrong password:
    when the environment fails the lookup of the user, the repository
    reports "database error" with the driver's message, but the façade
    answers Unauthenticated "invalid credentials" and the adapter 401 with
    "Invalid credentials", exactly as for a wrong password. *)
Theorem login_hides_database_failure `{Bcrypt} email password w msg rest :
  email ≠ "" → password ≠ "" →
  faults w = Some msg :: rest →
  (UserRepository.VerifyCredentials email password w).1
  = Err (Errorf "database error" (Some (PgError msg))) ∧
  (LibraryService.LoginUser (pb.mkLoginUserRequest email password) w).1
  = Err (mkStatus Unauthenticated "invalid credentials") ∧
  (RESTServer.loginUser (Some (pb.mkLoginUserRequest email password)) w).1
  = mkResponse 401 (error_body "Invalid credentials").
Proof.
  intros He Hp Hf.
  assert (Hv : UserRepository.VerifyCredentials email password w
               = (Err (Errorf "database error" (Some (PgError msg))),
                  with_faults rest (sent (SelectUserByEmail email) w))).
  { unfold UserRepository.VerifyCredentials, Pool.select_user_by_email.
    by erewrite statement_fails by done. }
  split; [by rewrite Hv|].
  unfold RESTServer.loginUser, LibraryService.LoginUser. simpl.
  rewrite !is_empty_false by done. simpl. by rewrite Hv.
Qed.

Lemma login_hides_database_failure_witness :
  (@RESTServer.loginUser example_bcrypt (Some (pb.mkLoginUserRequest "ann@x.com" "password123"))
     (with_faults [Some "connection refused"] sample_world)).1
  = mkResponse 401 (error_body "Invalid credentials").
Proof.
  by destruct (@login_hides_database_failure example_bcrypt "ann@x.com" "password123"
                 (with_faults [Some "connection refused"] sample_world)
                 "connection refused" []) as (_ & _ & ->).
Defined.

(** X20.  The text a failed borrow carries through the layers, the
    availability read not being failed.  For a book that is not available
    the façade answers Internal "failed to borrow book: book is not
    available"; for an identifier that names no book, Internal "failed to
    borrow book: failed to check book availability: no rows in result set";
    the adapter answers 500 with that status printed as an rpc error; and
    the store is unchanged in both cases. *)
Theorem borrow_failure_texts userID bookID w :
  next_fault w = None →
  userID ≠ "" → bookID ≠ "" →
  (∀ b, books (db w) !! bookID = Some b → b_available b = false) →
  let text :=
    match books (db w) !! bookID with
    | Some _ => "failed to borrow book: book is not available"
    | None => "failed to borrow book: failed to check book availability: no rows in result set"
    end in
  (LibraryService.BorrowBook (pb.mkBorrowBookRequest userID bookID) w).1
  = Err (mkStatus Internal text) ∧
  (RESTServer.borrowBook bookID (Some userID) w).1
  = mkResponse 500 (error_body ("rpc error: code = Internal desc = " +:+ text)) ∧
  db (RESTServer.borrowBook bookID (Some userID) w).2 = db w.
Proof.
  intros Hn Hu Hb Hunavailable text.
  unfold RESTServer.borrowBook, LibraryService.BorrowBook. simpl.
  rewrite !is_empty_false by done. simpl.
  unfold BookRepository.BorrowBook. subst text.
  destruct (books (db w) !! bookID) as [b|] eqn:Hbook.
  - rewrite (select_available_found _ b) by done.
    rewrite (Hunavailable b eq_refl). simpl. done.
  - rewrite select_available_missing by done. simpl. done.
Qed.

Lemma borrow_failure_texts_witness :
  (RESTServer.borrowBook "b2" (Some "u1") sample_world).1
  = mkResponse 500
      (error_body "rpc error: code = Internal desc = failed to borrow book: book is not available").
Proof.
  destruct (borrow_failure_texts "u1" "b2" sample_world) as (_ & Hrest & _); try done.
  intros b Hb. simpl in Hb. rewrite lookup_insert_ne in Hb by done.
  rewrite lookup_insert_eq in Hb. by injection Hb as <-.
Defined.

(** ** Successful requests through the adapter *)

Lemma insert_user_runs name email hash w :
  next_fault w = None →
  fits 255 name = true → fits 255 email = true → fits 255 hash = true →
  (∀ id u, users (db w) !! id = Some u → u_email u ≠ email) →
  Pool.insert_user name email hash w
  = (Ok (pb.mkUser (gen_random_uuid (users (db w))) name email),
     after (InsertUser name email hash)
           (mkDB (<[gen_random_uuid (users (db w)) := mkUserRow name email hash]> (users (db w)))
                 (books (db w)) (borrows (db w)))
           w).
Proof.
  intros Hn Hf1 Hf2 Hf3 Hnew. unfold Pool.insert_user. rewrite statement_runs by done.
  simpl. rewrite Hf1, Hf2, Hf3. simpl.
  assert (exists_where (λ u, String.eqb (u_email u) email) (users (db w)) = false) as ->;
    [|done].
  apply bool_decide_eq_false. intros Hne. apply Hne.
  apply map_empty_filter_2. intros id u Hu. simpl.
  apply not_true_iff_false, String.eqb_neq. by eapply Hnew.
Qed.

(** X21.  Registration succeeds when nothing stands in its way: for a
    request with non-empty fields, an email of the accepted format that no
    user holds, a password of at least 8 bytes, a name and an email of at
    most 255 characters, a hash generated within 255 characters and an
    insert that is not failed, the façade returns the new user, whose
    identifier no user had before, and the adapter answers 201 with the
    identifier, the name and the email, and nothing else. *)
Theorem register_valid_succeeds `{Bcrypt} req w hash :
  next_fault w = None →
  pb.reg_Name req ≠ "" → pb.reg_Email req ≠ "" →
  MatchString emailRegex (pb.reg_Email req) = true →
  (8 <= String.length (pb.reg_Password req))%nat →
  fits 255 (pb.reg_Name req) = true → fits 255 (pb.reg_Email req) = true →
  GenerateFromPassword (pb.reg_Password req) DefaultCost (entropy w) = Ok hash →
  fits 255 hash = true →
  (∀ id u, users (db w) !! id = Some u → u_email u ≠ pb.reg_Email req) →
  let user := pb.mkUser (gen_random_uuid (users (db w))) (pb.reg_Name req) (pb.reg_Email req) in
  users (db w) !! pb.Id user = None ∧
  (LibraryService.RegisterUser req w).1 = Ok (pb.mkRegisterUserResponse user) ∧
  (RESTServer.registerUser (Some req) w).1
  = mkResponse 201 (JObject [("id", JString (pb.Id user));
                             ("name", JString (pb.reg_Name req));
                             ("email", JString (pb.reg_Email req))]).
Proof.
  intros Hn Hname Hemail Hformat Hlen Hf1 Hf2 Hhash Hf3 Hnew user.
  split; [apply gen_random_uuid_fresh|].
  assert (Hpw : pb.reg_Password req ≠ "").
  { intros E. rewrite E in Hlen. simpl in Hlen. lia. }
  assert (Hrun : (LibraryService.RegisterUser req w).1 = Ok (pb.mkRegisterUserResponse user)).
  { unfold LibraryService.RegisterUser.
    rewrite !is_empty_false by done. simpl. rewrite Hformat. simpl.
    rewrite (proj2 (Nat.ltb_ge _ _)) by done.
    unfold UserRepository.Create. rewrite Hhash.
    rewrite insert_user_runs; done. }
  split; [done|].
  unfold RESTServer.registerUser.
  destruct (LibraryService.RegisterUser req w) as [r w']. simpl in Hrun. by subst r.
Qed.

Lemma register_valid_succeeds_witness :
  (@RESTServer.registerUser example_bcrypt
     (Some (pb.mkRegisterUserRequest "Bob" "bob@x.com" "password456")) sample_world).1
  = mkResponse 201 (JObject [("id", JString "0"); ("name", JString "Bob");
                             ("email", JString "bob@x.com")]).
Proof.
  destruct (@register_valid_succeeds example_bcrypt
              (pb.mkRegisterUserRequest "Bob" "bob@x.com" "password456") sample_world
              "password456") as (_ & _ & Hrest); try done.
  - simpl. lia.
  - intros id u Hu. simpl in Hu.
    apply lookup_insert_Some in Hu as [[_ <-]|[_ Hu]]; [done|].
    by rewrite lookup_empty in Hu.
Defined.



(** ** Failures before the second write *)

(** X23.  A failure of the first or of the second statement is harmless:
    when the environment fails the read, or the first update, of a borrow
    or of a return, the operation fails and the store and the output are as
    they were.  (Only failures after the first write can leave the store
    half changed.) *)
Theorem early_failures_change_nothing userID bookID dueDate borrowID w :
  fails_early w →
  let borrowing := BookRepository.BorrowBook userID bookID dueDate w in
  let returning := BookRepository.ReturnBook borrowID w in
  is_ok borrowing.1 = false ∧ db borrowing.2 = db w ∧ stdout borrowing.2 = stdout w ∧
  is_ok returning.1 = false ∧ db returning.2 = db w ∧ stdout returning.2 = stdout w.
Proof.
  intros [(msg & rest & Hf)|(msg & rest & Hf)]; simpl.
  - unfold BookRepository.BorrowBook, BookRepository.ReturnBook,
      Pool.select_available, Pool.select_borrow_book.
    rewrite !(statement_fails _ _ _ _ _ Hf). done.
  - assert (Hn : next_fault w = None) by (unfold next_fault; by rewrite Hf).
    split; [|split; [|split]]; [| | |split; [|split]].
    all: unfold BookRepository.BorrowBook, BookRepository.ReturnBook.
    1-3: destruct (books (db w) !! bookID) as [b|] eqn:Hb;
         [rewrite (select_available_found _ b) by done; destruct (b_available b); simpl;
          [unfold Pool.update_available;
           erewrite statement_fails by (simpl; rewrite Hf; reflexivity)|]
         |rewrite select_available_missing by done]; done.
    all: destruct (borrows (db w) !! borrowID) as [r|] eqn:Hr;
         [rewrite (select_borrow_book_found _ r) by done;
          unfold Pool.update_available;
          erewrite statement_fails by (simpl; rewrite Hf; reflexivity)
         |unfold Pool.select_borrow_book; rewrite statement_runs by done; simpl;
          rewrite Hr]; done.
Qed.

Lemma early_failures_change_nothing_witness :
  db (BookRepository.BorrowBook "u1" "b1" 1209700
        (with_faults [None; Some "timeout"] sample_world)).2
  = sample_db.
Proof.
  destruct (early_failures_change_nothing "u1" "b1" 1209700 "r1"
              (with_faults [None; Some "timeout"] sample_world)) as (_ & Hdb & _).
  - right. by exists "timeout", [].
  - exact Hdb.
Defined.
